(** * Plants-VS-Zombies: the state-machine scaffolding of [data/tools.py]

    A shallow embedding of [Control], the [_State] prototype class, the
    screens [Story] and [Survive], and the resource loaders, followed by
    the properties of the controller's life cycle.

    Python objects are mutable and shared, so state instances live in a
    heap indexed by their identity; the controller's [state_dict] and its
    [State] attribute hold references into that heap.  Code runs in a
    state-and-exception monad: an exception keeps every mutation made
    before it was raised, as in Python. *)

From Stdlib Require Import Ascii String.
From stdpp Require Import gmap strings list fin_maps.

(** ** Python values *)

(** A state name is a [str], or [None] (what [_State.__init__] leaves in
    [next] and [previous]). *)
Abbreviation name := (option string) (only parsing).

(** Identity of a state instance, and of a [persist] dictionary. *)
Abbreviation ref := nat (only parsing).
Abbreviation dref := nat (only parsing).

Inductive exn :=
| KeyError (k : name)
| TypeError (callee : string) (missing : list string)
| AttributeError (attr : string)
| IndexError
| ValueError
| PygameError (path : string)
| OSError (path : string).

Inductive outcome (A : Type) :=
| Ok (a : A)
| Raise (e : exn).
Arguments Ok {A} a.
Arguments Raise {A} e.

(** [Eff S A]: a computation over a mutable store [S] that returns an [A]
    or raises; the store that comes back is the store at the return or at
    the raise. *)
Definition Eff (S A : Type) : Type := S -> outcome A * S.

#[global] Instance Eff_ret {S} : MRet (Eff S) :=
  fun A a s => (Ok a, s).

#[global] Instance Eff_bind {S} : MBind (Eff S) :=
  fun A B k c s =>
    match c s with
    | (Ok a, s') => k a s'
    | (Raise e, s') => (Raise e, s')
    end.

Definition raise {S A} (e : exn) : Eff S A := fun s => (Raise e, s).
Definition gets {S A} (f : S -> A) : Eff S A := fun s => (Ok (f s), s).
Definition modify {S} (f : S -> S) : Eff S unit := fun s => (Ok tt, f s).

(** Run a computation on one component of the store. *)
Definition zoom {S T A} (get : S -> T) (set : T -> S -> S) (c : Eff T A) : Eff S A :=
  fun s => let '(r, t) := c (get s) in (r, set t s).

(** ** The pygame environment *)

Inductive event_type :=
| QUIT
| KEYDOWN
| KEYUP
| MOUSEBUTTONDOWN
| MOUSEBUTTONUP
| USEREVENT (code : Z).

#[global] Instance event_type_eq_dec : EqDecision event_type.
Proof. solve_decision. Defined.

Record Event := mkEvent { ev_type : event_type; ev_code : Z }.

(** The array of [pg.key.get_pressed()] and the triple of
    [pg.mouse.get_pressed()]. *)
Abbreviation Keys := (Z -> bool) (only parsing).
Abbreviation Mouse := (bool * bool * bool)%type (only parsing).

(** What the ambient pygame calls answer during one pass of the loop. *)
Record Device := mkDevice {
  key_get_pressed : Keys;
  mouse_get_pressed : Mouse;
  mouse_get_pos : Z * Z;
  time_get_ticks : Z;
  clock_get_fps : Z
}.

Definition K_F5 : Z := 286.

Record Rect := mkRect { rect_x : Z; rect_y : Z; rect_w : Z; rect_h : Z }.

(** [Rect.collidepoint]: the right and bottom edges are outside. *)
Definition collidepoint (r : Rect) (p : Z * Z) : bool :=
  bool_decide (rect_x r ≤ p.1 < rect_x r + rect_w r)%Z
  && bool_decide (rect_y r ≤ p.2 < rect_y r + rect_h r)%Z.

(** A surface is known by what was drawn on it, in order. *)
Inductive DrawOp :=
| Fill (rgb : Z * Z * Z)
| Blit (img : string) (dest : Rect).

Abbreviation Surface := (list DrawOp) (only parsing).

(** ** [class _State] *)

Module _State.
Section WithExtra.

(** [X]: the attributes a subclass adds in its own [__init__]. *)
Context {X : Type}.

Record attrs := Attrs {
  start_time : Z;
  done : bool;
  quit : bool;
  next : name;
  previous : name;
  persist : dref;
  extra : X
}.

Definition set_start_time (v : Z) (a : attrs) : attrs :=
  Attrs v (done a) (quit a) (next a) (previous a) (persist a) (extra a).
Definition set_done (v : bool) (a : attrs) : attrs :=
  Attrs (start_time a) v (quit a) (next a) (previous a) (persist a) (extra a).
Definition set_quit (v : bool) (a : attrs) : attrs :=
  Attrs (start_time a) (done a) v (next a) (previous a) (persist a) (extra a).
Definition set_next (v : name) (a : attrs) : attrs :=
  Attrs (start_time a) (done a) (quit a) v (previous a) (persist a) (extra a).
Definition set_previous (v : name) (a : attrs) : attrs :=
  Attrs (start_time a) (done a) (quit a) (next a) v (persist a) (extra a).
Definition set_persist (v : dref) (a : attrs) : attrs :=
  Attrs (start_time a) (done a) (quit a) (next a) (previous a) v (extra a).
Definition set_extra (v : X) (a : attrs) : attrs :=
  Attrs (start_time a) (done a) (quit a) (next a) (previous a) (persist a) v.

(** [__init__]: [fresh] is the identity of the new, empty [persist]
    dictionary; [x] holds what the subclass initialises. *)
Definition __init__ (dev : Device) (fresh : dref) (x : X) : attrs :=
  {| start_time := time_get_ticks dev;
     done := false;
     quit := false;
     next := None;
     previous := None;
     persist := fresh;
     extra := x |}.

(** [def get_event(self,event,keys,mouse): pass] *)
Definition get_event (event : Event) (keys : Keys) (mouse : Mouse) : Eff attrs unit :=
  mret tt.

(** The parameters after [self] of the definition above. *)
Definition get_event_params : list string := ["event"; "keys"; "mouse"].

Definition startup (dev : Device) (persistant : dref) : Eff attrs unit :=
  modify (set_persist persistant);;
  modify (set_start_time (time_get_ticks dev)).

Definition cleanup : Eff attrs dref :=
  modify (set_done false);;
  gets persist.

(** [def update(self,Surf,keys,mouse): pass] *)
Definition update (keys : Keys) (mouse : Mouse) : Eff (attrs * Surface) unit :=
  mret tt.

(** A subclass: [None] for a method it inherits.  The two subclasses of
    the repository override [get_event] and [update] only, with the
    parameter lists [(self,event)] and [(self,surface,keys,mouse)], and
    their bodies read the device and write their own attributes (and,
    for [update], the surface they are handed). *)
Record class := Class {
  class_name : string;
  def_get_event : option (Device -> Event -> Eff attrs unit);
  def_update : option (Device -> Keys -> Mouse -> Eff (attrs * Surface) unit)
}.

Record obj := Obj { self : attrs; cls : class }.

Definition set_self (a : attrs) (o : obj) : obj := Obj a (cls o).

End WithExtra.
Arguments attrs : clear implicits.
Arguments class : clear implicits.
Arguments obj : clear implicits.
End _State.

(** ** [class Control] *)

(** The text [pg.display.set_caption] was last given. *)
Inductive Caption :=
| Plain (caption : string)
| WithFps (caption : string) (fps : Z).

(** What a [persist] dictionary may hold. *)
Inductive value :=
| VNone
| VBool (b : bool)
| VInt (z : Z)
| VStr (s : string).

(** Method calls on state instances, in the order they happen: the
    observable the life-cycle properties speak about.  A call whose
    arguments do not fit the parameter list never enters the method and is
    not recorded. *)
Inductive Call :=
| CallGetEvent (r : ref) (event : Event)
| CallUpdate (r : ref)
| CallCleanup (r : ref) (returned : dref)
| CallStartup (r : ref) (persistant : dref).

(** One pass of the environment: the events [pg.event.get()] will hand
    out and what the device calls answer until the next pass. *)
Record Frame := mkFrame { frame_events : list Event; frame_device : Device }.

Module Control.
Section WithExtra.

Context {X : Type}.

Record attrs := Attrs {
  caption : string;
  done : bool;
  fps : Z;
  show_fps : bool;
  keys : Keys;
  mouse : Mouse;
  state_dict : gmap name ref;
  state_name : name;
  State : option ref
}.

Definition set_done (v : bool) (c : attrs) : attrs :=
  Attrs (caption c) v (fps c) (show_fps c) (keys c) (mouse c)
        (state_dict c) (state_name c) (State c).
Definition set_show_fps (v : bool) (c : attrs) : attrs :=
  Attrs (caption c) (done c) (fps c) v (keys c) (mouse c)
        (state_dict c) (state_name c) (State c).
Definition set_keys (v : Keys) (c : attrs) : attrs :=
  Attrs (caption c) (done c) (fps c) (show_fps c) v (mouse c)
        (state_dict c) (state_name c) (State c).
Definition set_mouse (v : Mouse) (c : attrs) : attrs :=
  Attrs (caption c) (done c) (fps c) (show_fps c) (keys c) v
        (state_dict c) (state_name c) (State c).
Definition set_state_dict (v : gmap name ref) (c : attrs) : attrs :=
  Attrs (caption c) (done c) (fps c) (show_fps c) (keys c) (mouse c)
        v (state_name c) (State c).
Definition set_state_name (v : name) (c : attrs) : attrs :=
  Attrs (caption c) (done c) (fps c) (show_fps c) (keys c) (mouse c)
        (state_dict c) v (State c).
Definition set_State (v : option ref) (c : attrs) : attrs :=
  Attrs (caption c) (done c) (fps c) (show_fps c) (keys c) (mouse c)
        (state_dict c) (state_name c) v.

(** Everything the program can read or write. *)
Record World := mkWorld {
  control : attrs;                       (* the one Control instance *)
  objs : gmap ref (_State.obj X);        (* state instances *)
  dicts : gmap dref (gmap string value); (* persist dictionaries *)
  device : Device;
  event_queue : list Event;
  screen : Surface;                      (* pg.display.get_surface() *)
  window_caption : Caption;
  presented : nat;                       (* pg.display.update() so far *)
  calls : list Call
}.

Definition set_control (v : attrs) (w : World) : World :=
  mkWorld v (objs w) (dicts w) (device w) (event_queue w) (screen w)
          (window_caption w) (presented w) (calls w).
Definition set_objs (v : gmap ref (_State.obj X)) (w : World) : World :=
  mkWorld (control w) v (dicts w) (device w) (event_queue w) (screen w)
          (window_caption w) (presented w) (calls w).
Definition set_device (v : Device) (w : World) : World :=
  mkWorld (control w) (objs w) (dicts w) v (event_queue w) (screen w)
          (window_caption w) (presented w) (calls w).
Definition set_event_queue (v : list Event) (w : World) : World :=
  mkWorld (control w) (objs w) (dicts w) (device w) v (screen w)
          (window_caption w) (presented w) (calls w).
Definition set_screen (v : Surface) (w : World) : World :=
  mkWorld (control w) (objs w) (dicts w) (device w) (event_queue w) v
          (window_caption w) (presented w) (calls w).
Definition set_window_caption (v : Caption) (w : World) : World :=
  mkWorld (control w) (objs w) (dicts w) (device w) (event_queue w) (screen w)
          v (presented w) (calls w).
Definition set_presented (v : nat) (w : World) : World :=
  mkWorld (control w) (objs w) (dicts w) (device w) (event_queue w) (screen w)
          (window_caption w) v (calls w).
Definition set_calls (v : list Call) (w : World) : World :=
  mkWorld (control w) (objs w) (dicts w) (device w) (event_queue w) (screen w)
          (window_caption w) (presented w) v.

Definition assign (f : attrs -> attrs) : Eff World unit :=
  modify (fun w => set_control (f (control w)) w).

Definition log (c : Call) : Eff World unit :=
  modify (fun w => set_calls (calls w ++ [c]) w).

(** *** Attribute access and method calls on [self.State] *)

(** The instance [self.State] denotes.  [None] has none of the
    attributes asked for.  (A reference outside the heap does not arise
    in Python; the model answers it the same way.) *)
Definition the_State (attr : string) : Eff World ref :=
  c ← gets control;
  match State c with
  | Some r => mret r
  | None => raise (AttributeError attr)
  end.

Definition load (r : ref) (attr : string) : Eff World (_State.obj X) :=
  h ← gets objs;
  match h !! r with
  | Some o => mret o
  | None => raise (AttributeError attr)
  end.

(** Run a method body on the attributes of instance [r]. *)
Definition on_self {A} (r : ref) (body : Eff (_State.attrs X) A) : Eff World A :=
  o ← load r "self";
  zoom (fun _ => _State.self o)
       (fun a w => set_objs (<[r := _State.set_self a o]> (objs w)) w)
       body.

(** The same for a body that also draws on the display surface. *)
Definition on_self_and_screen {A} (r : ref)
    (body : Eff (_State.attrs X * Surface) A) : Eff World A :=
  o ← load r "self";
  zoom (fun w => (_State.self o, screen w))
       (fun p w => set_screen p.2 (set_objs (<[r := _State.set_self p.1 o]> (objs w)) w))
       body.

(** A call that leaves required parameters without a value. *)
Definition missing_arguments {A} (callee : string) (params : list string) : Eff World A :=
  raise (TypeError callee params).

(** [self.State.get_event(event)] *)
Definition call_get_event (event : Event) : Eff World unit :=
  r ← the_State "get_event";
  o ← load r "get_event";
  match _State.def_get_event (_State.cls o) with
  | Some body =>
      log (CallGetEvent r event);;
      dev ← gets device;
      on_self r (body dev event)
  | None =>
      '(keys, mouse) ← missing_arguments "get_event" (drop 1 _State.get_event_params);
      log (CallGetEvent r event);;
      on_self r (_State.get_event event keys mouse)
  end.

(** [self.State.update(self.screen,self.keys,self.mouse)] *)
Definition call_update : Eff World unit :=
  r ← the_State "update";
  o ← load r "update";
  c ← gets control;
  log (CallUpdate r);;
  match _State.def_update (_State.cls o) with
  | Some body =>
      dev ← gets device;
      on_self_and_screen r (body dev (keys c) (mouse c))
  | None =>
      on_self_and_screen r (_State.update (keys c) (mouse c))
  end.

(** [self.State.cleanup()] *)
Definition call_cleanup : Eff World dref :=
  r ← the_State "cleanup";
  p ← on_self r _State.cleanup;
  log (CallCleanup r p);;
  mret p.

(** [self.State.startup(persist)] *)
Definition call_startup (persist : dref) : Eff World unit :=
  r ← the_State "startup";
  load r "startup";;
  log (CallStartup r persist);;
  dev ← gets device;
  on_self r (_State.startup dev persist).

(** *** The methods of [Control] *)

(** [__init__]: no states yet. *)
Definition __init__ (caption : string) (dev : Device) : attrs :=
  {| caption := caption;
     done := false;
     fps := 60;
     show_fps := true;
     keys := key_get_pressed dev;
     mouse := mouse_get_pressed dev;
     state_dict := ∅;
     state_name := None;
     State := None |}.

Definition setup_states (states : gmap name ref) (start_state : name) : Eff World unit :=
  assign (set_state_dict states);;
  assign (set_state_name start_state);;
  c ← gets control;
  match state_dict c !! state_name c with
  | Some r => assign (set_State (Some r))
  | None => raise (KeyError (state_name c))
  end.

Definition flip_state : Eff World unit :=
  c ← gets control;
  r ← the_State "next";
  o ← load r "next";
  let previous := state_name c in
  assign (set_state_name (_State.next (_State.self o)));;
  persist ← call_cleanup;
  c ← gets control;
  match state_dict c !! state_name c with
  | None => raise (KeyError (state_name c))
  | Some r' =>
      assign (set_State (Some r'));;
      call_startup persist;;
      r'' ← the_State "previous";
      on_self r'' (modify (_State.set_previous previous))
  end.

Definition update : Eff World unit :=
  r ← the_State "quit";
  o ← load r "quit";
  (if _State.quit (_State.self o) then
     assign (set_done true)
   else if _State.done (_State.self o) then
     flip_state
   else mret tt);;
  call_update.

Definition set_caption (c : Caption) : Eff World unit :=
  modify (set_window_caption c).

Definition toggle_show_fps : Eff World unit :=
  c ← gets control;
  (if keys c K_F5 then assign (set_show_fps (negb (show_fps c))) else mret tt);;
  c ← gets control;
  if negb (show_fps c) then set_caption (Plain (caption c)) else mret tt.

(** The body of the [for] of [event_loop], over what [pg.event.get()]
    returned. *)
Fixpoint for_event (events : list Event) : Eff World unit :=
  match events with
  | [] => mret tt
  | event :: rest =>
      dev ← gets device;
      (match ev_type event with
       | QUIT => assign (set_done true)
       | KEYDOWN | KEYUP =>
           assign (set_keys (key_get_pressed dev));;
           toggle_show_fps
       | MOUSEBUTTONDOWN | MOUSEBUTTONUP =>
           assign (set_mouse (mouse_get_pressed dev))
       | USEREVENT _ => mret tt
       end);;
      call_get_event event;;
      for_event rest
  end.

Definition event_loop : Eff World unit :=
  events ← gets event_queue;
  modify (set_event_queue []);;
  for_event events.

(** What the environment does between two passes of the loop. *)
Definition arrive (f : Frame) (w : World) : World :=
  set_device (frame_device f) (set_event_queue (event_queue w ++ frame_events f) w).

(** The statements of the [while] body of [main]. *)
Definition iteration : Eff World unit :=
  event_loop;;
  update;;
  modify (fun w => set_presented (S (presented w)) w);;
  c ← gets control;
  dev ← gets device;
  if show_fps c then set_caption (WithFps (caption c) (clock_get_fps dev))
  else mret tt.

(** [main] along a finite prefix of the environment: [true] when the
    [while] has exited, [false] when the prefix ran out with the loop
    still running.  [Clock.tick] only waits; the time it lets pass shows
    in the device of the next frame. *)
Fixpoint main (env : list Frame) : Eff World bool :=
  c ← gets control;
  if done c then mret true
  else match env with
       | [] => mret false
       | f :: env' =>
           modify (arrive f);;
           iteration;;
           main env'
       end.

End WithExtra.
Arguments World : clear implicits.
End Control.

(** ** The screens *)

(** [pygame.mask.Mask]: [get_at] raises outside the mask. *)
Record Mask := mkMask { mask_w : Z; mask_h : Z; mask_bit : Z -> Z -> bool }.

Definition get_at {S} (m : Mask) (pos : Z * Z) : Eff S bool :=
  if bool_decide (0 ≤ pos.1 < mask_w m)%Z && bool_decide (0 ≤ pos.2 < mask_h m)%Z
  then mret (mask_bit m pos.1 pos.2)
  else raise IndexError.

(** [list.remove]: the first occurrence goes; [None] when there is none
    ([ValueError]).  Sprites compare by identity. *)
Fixpoint list_remove (x : ref) (l : list ref) : option (list ref) :=
  match l with
  | [] => None
  | y :: l' => if decide (y = x) then Some l' else (y ::.) <$> list_remove x l'
  end.

Module Story.
Section WithSun.

(** [components/sun.py] is not among the sources: the class [Sun] is
    taken as it is used here, through the attributes [image],
    [image_rect] and [mask] and the method [update]; [Sun_new i] is the
    instance the [i]-th call [sun.Sun()] returns. *)
Context {Sun : Type}.
Variable image : Sun -> string.
Variable image_rect : Sun -> Rect.
Variable mask : Sun -> Mask.
Variable Sun_update : Sun -> Sun.
Variable Sun_new : nat -> Sun.

(** Where [get_rect(center=...)] puts the two rendered texts; it
    depends on [setup.SCREEN_RECT] and the font, which are not among the
    sources either. *)
Variable title_at ne_key_at : Rect.

(** The attributes [Story.__init__] adds.  [sun_objs] is the heap of the
    [Sun] instances that [suns] refers to. *)
Record data := Data {
  level_sun_fall : nat;
  sun_objs : gmap ref Sun;
  suns : list ref;
  title : string;
  title_rect : Rect;
  ne_key : string;
  ne_key_rect : Rect;
  blink : bool;
  timer : Z
}.

Definition set_suns (v : list ref) (d : data) : data :=
  Data (level_sun_fall d) (sun_objs d) v (title d) (title_rect d)
       (ne_key d) (ne_key_rect d) (blink d) (timer d).
Definition set_blink (v : bool) (d : data) : data :=
  Data (level_sun_fall d) (sun_objs d) (suns d) (title d) (title_rect d)
       (ne_key d) (ne_key_rect d) v (timer d).
Definition set_timer (v : Z) (d : data) : data :=
  Data (level_sun_fall d) (sun_objs d) (suns d) (title d) (title_rect d)
       (ne_key d) (ne_key_rect d) (blink d) v.

(** The rendered text is known by its message. *)
Definition render_font (font : string) (size : Z) (msg : string) (color : Z * Z * Z) : string :=
  msg.

Definition __init__ (dev : Device) (fresh : dref) : _State.attrs data :=
  let level_sun_fall := 10 in
  _State.__init__ dev fresh
    {| level_sun_fall := level_sun_fall;
       sun_objs := list_to_map (imap (fun i _ => (i, Sun_new i)) (replicate level_sun_fall tt));
       suns := seq 0 level_sun_fall;
       title := render_font "Fixedsys500c" 20 "Story" (255, 255, 0)%Z;
       title_rect := title_at;
       ne_key := render_font "Fixedsys500c" 20 "[Press Any Key]" (255, 255, 0)%Z;
       ne_key_rect := ne_key_at;
       blink := false;
       timer := 0 |}.

(** A method body works on [self] and the surface it was handed. *)
Abbreviation Sto := (_State.attrs data * Surface)%type (only parsing).

Definition on_data (f : data -> data) : Eff Sto unit :=
  modify (fun s : Sto => (_State.set_extra (f (_State.extra s.1)) s.1, s.2)).

Definition draw (op : DrawOp) : Eff Sto unit :=
  modify (fun s : Sto => (s.1, s.2 ++ [op])).

Definition the_sun (r : ref) : Eff Sto Sun :=
  h ← gets (fun s : Sto => sun_objs (_State.extra s.1));
  match h !! r with
  | Some obj => mret obj
  | None => raise (AttributeError "image_rect")
  end.

Definition suns_remove (r : ref) : Eff Sto unit :=
  l ← gets (fun s : Sto => suns (_State.extra s.1));
  match list_remove r l with
  | Some l' => on_data (set_suns l')
  | None => raise ValueError
  end.

(** [obj.update]: the method bound to [obj], not yet called. *)
Definition bound_update (obj : Sun) : unit -> Sun :=
  fun _ => Sun_update obj.

(** The [for] of [sun_updates], over the copy [self.suns[:]]. *)
Fixpoint for_obj (dev : Device) (copy : list ref) : Eff Sto unit :=
  match copy with
  | [] => mret tt
  | r :: rest =>
      obj ← the_sun r;
      broke ←
        (if collidepoint (image_rect obj) (mouse_get_pos dev)
            && (mouse_get_pressed dev).1.1
         then
           let mouse := mouse_get_pos dev in
           let offset := (mouse.1 - rect_x (image_rect obj),
                          mouse.2 - rect_y (image_rect obj))%Z in
           bit ← get_at (mask obj) offset;
           if negb bit then
             if (mouse_get_pressed dev).1.1 then
               suns_remove r;;
               mret true
             else mret false
           else mret false
         else mret false);
      if broke : bool then mret tt
      else
        let _ := bound_update obj in
        draw (Blit (image obj) (image_rect obj));;
        for_obj dev rest
  end.

Definition sun_updates (dev : Device) : Eff Sto unit :=
  copy ← gets (fun s : Sto => suns (_State.extra s.1));
  for_obj dev copy.

Definition update (dev : Device) (keys : Keys) (mouse : Mouse) : Eff Sto unit :=
  draw (Fill (0, 0, 0)%Z);;
  sun_updates dev;;
  d ← gets (fun s : Sto => _State.extra s.1);
  (if bool_decide (time_get_ticks dev - timer d > 200)%Z then
     on_data (set_blink (negb (blink d)));;
     on_data (set_timer (time_get_ticks dev))
   else mret tt);;
  d ← gets (fun s : Sto => _State.extra s.1);
  (if blink d then draw (Blit (ne_key d) (ne_key_rect d)) else mret tt);;
  draw (Blit (title d) (title_rect d)).

Definition get_event (dev : Device) (event : Event) : Eff (_State.attrs data) unit :=
  if decide (ev_type event = KEYDOWN) then
    modify (_State.set_next (Some "MENU"));;
    modify (_State.set_done true)
  else mret tt.

Definition class : _State.class data :=
  _State.Class "Story" (Some get_event) (Some update).

End WithSun.
Arguments data : clear implicits.
End Story.

Module Survive.

Record data := Data {
  title : string;
  title_rect : Rect;
  ne_key : string;
  ne_key_rect : Rect;
  blink : bool;
  timer : Z
}.

Definition set_blink (v : bool) (d : data) : data :=
  Data (title d) (title_rect d) (ne_key d) (ne_key_rect d) v (timer d).
Definition set_timer (v : Z) (d : data) : data :=
  Data (title d) (title_rect d) (ne_key d) (ne_key_rect d) (blink d) v.

Definition render_font (font : string) (size : Z) (msg : string) (color : Z * Z * Z) : string :=
  msg.

Definition __init__ (title_at ne_key_at : Rect) (dev : Device) (fresh : dref) : _State.attrs data :=
  _State.__init__ dev fresh
    {| title := render_font "Fixedsys500c" 20 "Survive" (255, 255, 0)%Z;
       title_rect := title_at;
       ne_key := render_font "Fixedsys500c" 20 "[Press Any Key]" (255, 255, 0)%Z;
       ne_key_rect := ne_key_at;
       blink := false;
       timer := 0 |}.

Abbreviation Sto := (_State.attrs data * Surface)%type (only parsing).

Definition on_data (f : data -> data) : Eff Sto unit :=
  modify (fun s : Sto => (_State.set_extra (f (_State.extra s.1)) s.1, s.2)).

Definition draw (op : DrawOp) : Eff Sto unit :=
  modify (fun s : Sto => (s.1, s.2 ++ [op])).

Definition update (dev : Device) (keys : Keys) (mouse : Mouse) : Eff Sto unit :=
  draw (Fill (0, 0, 0)%Z);;
  d ← gets (fun s : Sto => _State.extra s.1);
  draw (Blit (title d) (title_rect d));;
  (if bool_decide (time_get_ticks dev - timer d > 200)%Z then
     on_data (set_blink (negb (blink d)));;
     on_data (set_timer (time_get_ticks dev))
   else mret tt);;
  d ← gets (fun s : Sto => _State.extra s.1);
  if blink d then draw (Blit (ne_key d) (ne_key_rect d)) else mret tt.

Definition get_event (dev : Device) (event : Event) : Eff (_State.attrs data) unit :=
  if decide (ev_type event = KEYDOWN) then
    modify (_State.set_next (Some "MENU"));;
    modify (_State.set_done true)
  else mret tt.

Definition class : _State.class data :=
  _State.Class "Survive" (Some get_event) (Some update).

End Survive.

(** ** Resource loading functions *)

(** *** The pieces of [os.path] and [str] the loaders use *)

(** [str.rfind] of one character: the last index, or [-1]. *)
Fixpoint rfind_from (c : ascii) (s : list ascii) (i last : Z) : Z :=
  match s with
  | [] => last
  | a :: s' => rfind_from c s' (i + 1)%Z (if decide (a = c) then i else last)
  end.

Definition rfind (c : ascii) (s : list ascii) : Z := rfind_from c s 0 (-1).

(** The [while] of [genericpath._splitext]: is there a character that is
    not the separator among the given ones (those before the last dot)? *)
Fixpoint skip_leading_dots (extsep : ascii) (before : list ascii) : bool :=
  match before with
  | [] => false
  | a :: rest => if decide (a ≠ extsep) then true else skip_leading_dots extsep rest
  end.

(** [os.path.splitext] of [posixpath]. *)
Definition splitext (p : string) : string * string :=
  let l := list_ascii_of_string p in
  let sepIndex := rfind "/"%char l in
  let dotIndex := rfind "."%char l in
  if bool_decide (dotIndex > sepIndex)%Z
     && skip_leading_dots "."%char
          (take (Z.to_nat (dotIndex - (sepIndex + 1))) (drop (Z.to_nat (sepIndex + 1)) l))
  then (string_of_list_ascii (take (Z.to_nat dotIndex) l),
        string_of_list_ascii (drop (Z.to_nat dotIndex) l))
  else (p, "").

(** [os.path.join] of [posixpath], two components. *)
Definition path_join (a b : string) : string :=
  if String.prefix "/" b then b
  else if bool_decide (a = "") || bool_decide (String.get (String.length a - 1) a = Some "/"%char)
       then a +:+ b
       else a +:+ "/" +:+ b.

(** [str.lower], on the ASCII letters. *)
Definition lower_ascii (a : ascii) : ascii :=
  let n := nat_of_ascii a in
  if bool_decide (65 ≤ n ≤ 90) then ascii_of_nat (n + 32) else a.

Definition lower (s : string) : string :=
  string_of_list_ascii (lower_ascii <$> list_ascii_of_string s).

(** *** What pygame loads *)

(** A loaded picture: where it came from and what [get_alpha()] answers
    ([None], or the surface alpha). *)
Record Image := mkImage { image_path : string; get_alpha : option Z }.

Inductive PixelFormat := PerPixelAlpha | Opaque.

(** A picture after conversion for the display. *)
Record Graphic := mkGraphic {
  source : Image;
  format : PixelFormat;
  colorkey : option (Z * Z * Z)
}.

Definition convert_alpha (img : Image) : Graphic := mkGraphic img PerPixelAlpha None.
Definition convert (img : Image) : Graphic := mkGraphic img Opaque None.
Definition set_colorkey (c : Z * Z * Z) (g : Graphic) : Graphic :=
  mkGraphic (source g) (format g) (Some c).

(** Python's truth value of what [get_alpha()] answers. *)
Definition truthy (v : option Z) : bool :=
  match v with
  | None => false
  | Some z => negb (z =? 0)%Z
  end.

Record Sound := mkSound { sound_path : string }.

(** The file system and the decoders, as the loaders see them: [None]
    where the call raises. *)
Record Files := mkFiles {
  listdir : string -> option (list string);
  image_load : string -> option Image;
  mixer_Sound : string -> option Sound
}.

Definition accepted (accept : list string) (pic : string) : bool :=
  bool_decide (lower (splitext pic).2 ∈ accept).

Definition as_displayed (colorkey : Z * Z * Z) (img : Image) : Graphic :=
  if truthy (get_alpha img) then convert_alpha img
  else set_colorkey colorkey (convert img).

Fixpoint for_pic (fs : Files) (directory : string) (colorkey : Z * Z * Z)
    (accept : list string) (pics : list string) : Eff (gmap string Graphic) unit :=
  match pics with
  | [] => mret tt
  | pic :: rest =>
      let '(name, ext) := splitext pic in
      (if bool_decide (lower ext ∈ accept) then
         match image_load fs (path_join directory pic) with
         | None => raise (PygameError (path_join directory pic))
         | Some img =>
             let img := as_displayed colorkey img in
             modify (<[name := img]>)
         end
       else mret tt);;
      for_pic fs directory colorkey accept rest
  end.

Definition returning {S A} (r : outcome A * S) : outcome S :=
  match r with
  | (Ok _, s) => Ok s
  | (Raise e, _) => Raise e
  end.

Definition load_all_gfx (fs : Files) (directory : string)
    (colorkey : Z * Z * Z) (accept : list string) : outcome (gmap string Graphic) :=
  match listdir fs directory with
  | None => Raise (OSError directory)
  | Some pics => returning (for_pic fs directory colorkey accept pics ∅)
  end.

(** The defaults of the [def]. *)
Definition gfx_colorkey : Z * Z * Z := (255, 0, 255)%Z.
Definition gfx_accept : list string := [".png"; ".jpg"; ".bmp"].
Definition music_accept : list string := [".wav"; ".mp3"; ".ogg"; ".mdi"].
Definition fonts_accept : list string := [".ttf"].

Fixpoint for_song (directory : string) (accept : list string)
    (songs : list string) : Eff (gmap string string) unit :=
  match songs with
  | [] => mret tt
  | song :: rest =>
      let '(name, ext) := splitext song in
      (if bool_decide (lower ext ∈ accept) then
         modify (<[name := path_join directory song]>)
       else mret tt);;
      for_song directory accept rest
  end.

Definition load_all_music (fs : Files) (directory : string)
    (accept : list string) : outcome (gmap string string) :=
  match listdir fs directory with
  | None => Raise (OSError directory)
  | Some songs => returning (for_song directory accept songs ∅)
  end.

Definition load_all_fonts (fs : Files) (directory : string)
    (accept : list string) : outcome (gmap string string) :=
  load_all_music fs directory accept.

(** [pg.os.path.join], as [load_all_sfx] spells it where the other
    loaders write [os.path.join].  The module [pygame] does not keep the
    [os] it imports (its [__init__] ends by deleting it from the
    namespace), so the lookup of [pg.os] raises [AttributeError] and
    [path.join] is not reached. *)
Definition pg_os_path_join {S} (a b : string) : Eff S string :=
  raise (AttributeError "os").

Fixpoint for_fx (fs : Files) (directory : string) (accept : list string)
    (fxs : list string) : Eff (gmap string Sound) unit :=
  match fxs with
  | [] => mret tt
  | fx :: rest =>
      let '(name, ext) := splitext fx in
      (if bool_decide (lower ext ∈ accept) then
         path ← pg_os_path_join directory fx;
         match mixer_Sound fs path with
         | None => raise (PygameError path)
         | Some snd => modify (<[name := snd]>)
         end
       else mret tt);;
      for_fx fs directory accept rest
  end.

Definition load_all_sfx (fs : Files) (directory : string)
    (accept : list string) : outcome (gmap string Sound) :=
  match listdir fs directory with
  | None => Raise (OSError directory)
  | Some fxs => returning (for_fx fs directory accept fxs ∅)
  end.

(** ** Runs of the controller *)

Section Runs.
Context {X : Type}.

(** The outgoing instance as [cleanup] leaves it. *)
Definition left (o : _State.obj X) : _State.obj X :=
  _State.set_self (_State.set_done false (_State.self o)) o.

(** The incoming instance as [startup] and the assignment of
    [previous] leave it. *)
Definition entered (dev : Device) (p : dref) (previous : name)
    (o : _State.obj X) : _State.obj X :=
  _State.set_self
    (_State.set_previous previous
       (_State.set_start_time (time_get_ticks dev)
          (_State.set_persist p (_State.self o)))) o.

(** What the [while] body of [main] does after [self.update()]: the
    frame is presented, the clock waits, and the caption shows the frame
    rate when [show_fps] is on. *)
Definition present : Eff (Control.World X) unit :=
  modify (fun w => Control.set_presented (S (Control.presented w)) w);;
  c ← gets Control.control;
  dev ← gets Control.device;
  if Control.show_fps c
  then Control.set_caption (WithFps (Control.caption c) (clock_get_fps dev))
  else mret tt.

(** What happens between two transitions: the environment moves on, or
    the controller runs one of its methods, calls the current state's
    [update], or presents the frame. *)
Inductive Step :=
| Arrive (f : Frame)
| EventLoop
| Update
| StateUpdate
| FlipState
| Present.

Definition perform (st : Step) : Eff (Control.World X) unit :=
  match st with
  | Arrive f => modify (Control.arrive f)
  | EventLoop => Control.event_loop
  | Update => Control.update
  | StateUpdate => Control.call_update
  | FlipState => Control.flip_state
  | Present => present
  end.

(** Run [steps], none of which raises and none of which makes instance
    [s] the current state. *)
Fixpoint elsewhere (s : ref) (steps : list Step) (w : Control.World X)
    : option (Control.World X) :=
  match steps with
  | [] => Some w
  | st :: rest =>
      match perform st w with
      | (Ok _, w') =>
          if decide (Control.State (Control.control w') = Some s) then None
          else elsewhere s rest w'
      | (Raise _, _) => None
      end
  end.

(** The calls made since the trace was [before]. *)
Definition since (before : list Call) (w : Control.World X) : list Call :=
  drop (length before) (Control.calls w).

(** The instances whose [update] a trace calls, in order. *)
Definition updates (l : list Call) : list ref :=
  omap (fun c => match c with CallUpdate r => Some r | _ => None end) l.

(** The claim that a state which asked to quit during event dispatch
    gets no further [update]: after the events of [f], if the current
    state has [quit] set, [Control.update] does not call its [update]. *)
Definition quit_skips_update (w : Control.World X) (f : Frame) : Prop :=
  forall w1 r o res w2,
    Control.event_loop (Control.arrive f w) = (Ok tt, w1) ->
    Control.State (Control.control w1) = Some r ->
    Control.objs w1 !! r = Some o ->
    _State.quit (_State.self o) = true ->
    Control.update w1 = (res, w2) ->
    CallUpdate r ∉ since (Control.calls w1) w2.

(** The claim that [startup] resets [start_time] and [done] and stores
    the mapping it is given. *)
Definition startup_resets (dev : Device) (p : dref) (a : _State.attrs X) : Prop :=
  let a' := (_State.startup dev p a).2 in
  _State.start_time a' = time_get_ticks dev
  /\ _State.done a' = false
  /\ _State.persist a' = p.

(** [w'] has the same current state as [w], and differs from it on no
    other instance. *)
Definition quiet (w w' : Control.World X) : Prop :=
  Control.State (Control.control w') = Control.State (Control.control w)
  /\ forall x, Control.State (Control.control w) ≠ Some x ->
       Control.objs w' !! x = Control.objs w !! x.

(** A computation all of whose runs are quiet. *)
Definition Quiet {A} (c : Eff (Control.World X) A) : Prop :=
  forall w res w', c w = (res, w') -> quiet w w'.

End Runs.

(** ** Scenarios *)

Module Scenario.

(** A screen that asks for [target] on a key press and for the end of
    the program on a mouse click:
<<
    def get_event(self,event):
        if event.type == pg.KEYDOWN:
            self.next = target
            self.done = True
        elif event.type == pg.MOUSEBUTTONDOWN:
            self.quit = True
>>
    It inherits [update], [startup] and [cleanup]. *)
Definition get_event (target : name) (dev : Device) (event : Event) : Eff (_State.attrs unit) unit :=
  if decide (ev_type event = KEYDOWN) then
    modify (_State.set_next target);;
    modify (_State.set_done true)
  else if decide (ev_type event = MOUSEBUTTONDOWN) then
    modify (_State.set_quit true)
  else mret tt.

Definition Screen (target : name) : _State.class unit :=
  _State.Class "Screen" (Some (get_event target)) None.

(** A subclass that overrides nothing. *)
Definition Bare : _State.class unit :=
  _State.Class "Bare" None None.

Definition idle : Device :=
  {| key_get_pressed := fun _ => false;
     mouse_get_pressed := (false, false, false);
     mouse_get_pos := (0, 0)%Z;
     time_get_ticks := 0;
     clock_get_fps := 60 |}.

Definition at_time (t : Z) : Device :=
  mkDevice (key_get_pressed idle) (mouse_get_pressed idle) (mouse_get_pos idle) t 60.

(** States [A] (instance 0, goes to ["B"]) and [B] (instance 1, goes
    back to ["A"]), each with its own empty [persist]; the controller
    has been set up to start in ["A"]. *)
Definition two_states : Control.World unit :=
  {| Control.control :=
       Control.set_State (Some 0)
         (Control.set_state_name (Some "A")
            (Control.set_state_dict (<[Some "A" := 0]> (<[Some "B" := 1]> ∅))
               (Control.__init__ "Plants VS Zombies" idle)));
     Control.objs :=
       <[0 := _State.Obj (_State.__init__ idle 0 tt) (Screen (Some "B"))]>
         (<[1 := _State.Obj (_State.__init__ idle 1 tt) (Screen (Some "A"))]> ∅);
     Control.dicts := <[0 := ∅]> (<[1 := ∅]> ∅);
     Control.device := idle;
     Control.event_queue := [];
     Control.screen := [];
     Control.window_caption := Plain "Plants VS Zombies";
     Control.presented := 0;
     Control.calls := [] |}.

(** [A] once it is done and asks for [target]. *)
Definition A_obj (target : name) : _State.obj unit :=
  _State.Obj (_State.set_done true (_State.set_next target (_State.__init__ idle 0 tt)))
             (Screen (Some "B")).

Definition A_done (target : name) : Control.World unit :=
  Control.set_objs (<[0 := A_obj target]> (Control.objs two_states)) two_states.

(** From [A] to [B]; then [B] is updated and the frame presented, a key
    goes down and is dispatched, so that [B] is done and asks for ["A"];
    then back. *)
Definition in_B : Control.World unit :=
  (Control.flip_state (A_done (Some "B"))).2.

Definition B_steps : list Step :=
  [StateUpdate; Present; Arrive (mkFrame [mkEvent KEYDOWN 32] (at_time 16)); EventLoop].

Definition B_done : Control.World unit :=
  default in_B (elsewhere 0 B_steps in_B).

Definition back_in_A : Control.World unit :=
  (Control.flip_state B_done).2.

(** One frame of [Control.update] with [A] done. *)
Definition A_updated : Control.World unit :=
  (Control.update (A_done (Some "B"))).2.

(** A click while [A] is current. *)
Definition clicking : Frame := mkFrame [mkEvent MOUSEBUTTONDOWN 1] (at_time 16).

Definition A_quit : Control.World unit :=
  (Control.event_loop (Control.arrive clicking two_states)).2.

Definition A_quit_updated : Control.World unit :=
  (Control.update A_quit).2.

(** One instance of a class that inherits [get_event], current. *)
Definition bare_state : Control.World unit :=
  Control.set_objs (<[0 := _State.Obj (_State.__init__ idle 0 tt) Bare]> ∅) two_states.

Definition bare_key_down : Control.World unit :=
  Control.set_event_queue [mkEvent KEYDOWN 32] bare_state.

(** A sun that counts its updates, and two of them at the left of the
    screen; the mask of the first is empty. *)
Record Sun := mkSun { sun_rect : Rect; sun_mask : Mask; sun_age : nat }.

Definition Sun_update (s : Sun) : Sun :=
  mkSun (sun_rect s) (sun_mask s) (S (sun_age s)).

Definition two_suns : _State.attrs (Story.data Sun) :=
  _State.__init__ idle 0
    {| Story.level_sun_fall := 2;
       Story.sun_objs :=
         <[0 := mkSun (mkRect 0 0 10 10) (mkMask 10 10 (fun _ _ => false)) 0]>
           (<[1 := mkSun (mkRect 20 0 10 10) (mkMask 10 10 (fun _ _ => true)) 0]> ∅);
       Story.suns := [0; 1];
       Story.title := "Story";
       Story.title_rect := mkRect 0 200 50 20;
       Story.ne_key := "[Press Any Key]";
       Story.ne_key_rect := mkRect 0 500 150 20;
       Story.blink := false;
       Story.timer := 0 |}.

Definition click_at (p : Z * Z) : Device :=
  mkDevice (fun _ => false) (true, false, false) p 16 60.

Definition picture_files : Files :=
  {| listdir := fun d => if decide (d = "gfx") then Some ["foo.png"; "bar.png"] else None;
     image_load := fun p =>
       if decide (p = "gfx/foo.png") then Some (mkImage p None)
       else if decide (p = "gfx/bar.png") then Some (mkImage p (Some 255%Z))
       else None;
     mixer_Sound := fun _ => None |}.

End Scenario.


(** ** What the methods of the controller keep *)

Section Keeping.
Context {X : Type}.

(** What no method of the controller changes once the states are set
    up: the device and the count of presented frames are not theirs to
    change, [state_dict], [caption] and [fps] are only read, and [done]
    is only ever set. *)
Definition steady (w w' : Control.World X) : Prop :=
  Control.device w' = Control.device w
  /\ Control.presented w' = Control.presented w
  /\ Control.state_dict (Control.control w') = Control.state_dict (Control.control w)
  /\ Control.caption (Control.control w') = Control.caption (Control.control w)
  /\ Control.fps (Control.control w') = Control.fps (Control.control w)
  /\ (Control.done (Control.control w) = true -> Control.done (Control.control w') = true).

(** What event dispatch keeps on top of that: the current state and its
    name, the display surface, and [show_fps] unless F5 is held. *)
Definition listening (w w' : Control.World X) : Prop :=
  steady w w'
  /\ Control.State (Control.control w') = Control.State (Control.control w)
  /\ Control.state_name (Control.control w') = Control.state_name (Control.control w)
  /\ (key_get_pressed (Control.device w) K_F5 = false ->
      Control.show_fps (Control.control w') = Control.show_fps (Control.control w)).

(** Every run of [c], however it ends, relates the stores by [R]. *)
Definition Through (R : Control.World X -> Control.World X -> Prop) {A}
    (c : Eff (Control.World X) A) : Prop :=
  forall w res w', c w = (res, w') -> R w w'.

(** The controller's three views of the current state agree: [State] is
    the instance that [state_dict] holds under [state_name]. *)
Definition consistent (w : Control.World X) : Prop :=
  exists r, Control.State (Control.control w) = Some r
            /\ Control.state_dict (Control.control w) !! Control.state_name (Control.control w)
               = Some r.

(** The claim that every call of [Control.update] calls [update] on
    exactly one state. *)
Definition update_calls_one_update (w : Control.World X) : Prop :=
  forall res w',
    Control.update w = (res, w') ->
    exists r, updates (since (Control.calls w) w') = [r].

End Keeping.

(** The claim that [load_all_gfx] returns, for every listing, a mapping
    whose keys are the names of the accepted files. *)
Definition load_all_gfx_returns_keys (fs : Files) (directory : string)
    (colorkey : Z * Z * Z) (accept : list string) : Prop :=
  forall pics,
    listdir fs directory = Some pics ->
    exists g,
      load_all_gfx fs directory colorkey accept = Ok g
      /\ dom g = list_to_set ((fun pic => (splitext pic).1)
                    <$> filter (fun pic => accepted accept pic = true) pics).

(** ** Further scenarios *)

Module Cases.

(** Two events wait while [A] is current. *)
Definition queued : Control.World unit :=
  Control.set_event_queue [mkEvent KEYUP 32; mkEvent MOUSEBUTTONUP 1] Scenario.two_states.

(** The window is closed after a key was released. *)
Definition closing : Control.World unit :=
  Control.set_event_queue [mkEvent KEYUP 32; mkEvent QUIT 0] Scenario.two_states.

Definition close_frame : Frame := mkFrame [mkEvent QUIT 0] (Scenario.at_time 16).
Definition empty_frame : Frame := mkFrame [] (Scenario.at_time 16).
Definition key_frame : Frame := mkFrame [mkEvent KEYDOWN 32] (Scenario.at_time 16).

(** The controller before [setup_states]. *)
Definition not_set_up : Control.World unit :=
  Control.set_control (Control.__init__ "Plants VS Zombies" Scenario.idle) Scenario.two_states.

Definition A_and_B : gmap name ref := <[Some "A" := 0]> (<[Some "B" := 1]> ∅).

(** F5 is down in [self.keys]. *)
Definition F5_held : Control.World unit :=
  Control.set_control
    (Control.set_keys (fun k => bool_decide (k = K_F5)) (Control.control Scenario.two_states))
    Scenario.two_states.

Definition B_obj : _State.obj unit :=
  _State.Obj (_State.__init__ Scenario.idle 1 tt) (Scenario.Screen (Some "A")).






(** One sun whose mask is smaller than its rect. *)
Definition small_mask : _State.attrs (Story.data Scenario.Sun) :=
  _State.set_extra
    {| Story.level_sun_fall := 1;
       Story.sun_objs :=
         <[0 := Scenario.mkSun (mkRect 0 0 10 10) (mkMask 5 5 (fun _ _ => false)) 0]> ∅;
       Story.suns := [0];
       Story.title := "Story";
       Story.title_rect := mkRect 0 200 50 20;
       Story.ne_key := "[Press Any Key]";
       Story.ne_key_rect := mkRect 0 500 150 20;
       Story.blink := false;
       Story.timer := 0 |}
    Scenario.two_suns.

(** Directories: pictures one of which does not decode, the accepted
    pictures of [Scenario.picture_files] beside other files, songs, and
    effects. *)
Definition broken_files : Files :=
  {| listdir := fun d => if decide (d = "gfx") then Some ["foo.png"; "bad.png"; "bar.png"]
                         else None;
     image_load := fun p =>
       if decide (p = "gfx/bad.png") then None else Some (mkImage p None);
     mixer_Sound := fun _ => None |}.

Definition cluttered_files : Files :=
  {| listdir := fun d => if decide (d = "gfx")
                         then Some ["foo.png"; "notes.txt"; "bar.png"; ".png"]
                         else None;
     image_load := fun p =>
       if decide (p = "gfx/foo.png") then Some (mkImage p None)
       else if decide (p = "gfx/bar.png") then Some (mkImage p (Some 255%Z))
       else None;
     mixer_Sound := fun _ => None |}.

Definition same_name_files : Files :=
  {| listdir := fun d => if decide (d = "gfx") then Some ["foo.png"; "foo.BMP"] else None;
     image_load := fun p => Some (mkImage p None);
     mixer_Sound := fun _ => None |}.

Definition sound_files : Files :=
  {| listdir := fun d => if decide (d = "snd") then Some ["a.ogg"; "b.MP3"; "c.txt"] else None;
     image_load := fun _ => None;
     mixer_Sound := fun p => Some (mkSound p) |}.

End Cases.


(** * Properties *)

#[local] Set Warnings "-clear-no-such-hyp".

(** Unfold the monad down to functions on the store. *)
Ltac eff :=
  unfold mbind, mret, Eff_bind, Eff_ret, gets, modify, raise, zoom in *;
  simpl in *.

(** ** The library pieces, on small inputs *)

Example splitext_png : splitext "foo.png" = ("foo", ".png").
Proof. reflexivity. Qed.
Example splitext_two : splitext "a.tar.GZ" = ("a.tar", ".GZ").
Proof. reflexivity. Qed.
Example splitext_hidden : splitext ".bashrc" = (".bashrc", "").
Proof. reflexivity. Qed.
Example splitext_none : splitext "README" = ("README", "").
Proof. reflexivity. Qed.
Example lower_ext : lower ".PnG" = ".png".
Proof. reflexivity. Qed.
Example join_ex : path_join "resources/graphics" "foo.png" = "resources/graphics/foo.png".
Proof. reflexivity. Qed.

(** ** The life cycle of states *)

Section Lifecycle.
Context {X : Type}.
Implicit Types (w : Control.World X) (a : _State.attrs X) (o : _State.obj X).

Lemma flip_state_ok w r o r' o' :
  Control.State (Control.control w) = Some r ->
  Control.objs w !! r = Some o ->
  Control.state_dict (Control.control w) !! _State.next (_State.self o) = Some r' ->
  <[r := left o]> (Control.objs w) !! r' = Some o' ->
  exists w',
    Control.flip_state w = (Ok tt, w')
    /\ Control.control w' =
         Control.set_State (Some r')
           (Control.set_state_name (_State.next (_State.self o)) (Control.control w))
    /\ Control.objs w' =
         <[r' := entered (Control.device w) (_State.persist (_State.self o))
                   (Control.state_name (Control.control w)) o']>
           (<[r := left o]> (Control.objs w))
    /\ Control.calls w' =
         Control.calls w ++ [CallCleanup r (_State.persist (_State.self o));
                             CallStartup r' (_State.persist (_State.self o))]
    /\ Control.dicts w' = Control.dicts w.
Proof.
  intros HS Ho Hd Ho'.
  unfold Control.flip_state, Control.call_cleanup, Control.call_startup,
    Control.on_self, Control.the_State, Control.load, left in *.
  eff.
  repeat (progress (rewrite ?HS, ?Ho, ?Hd, ?Ho', ?lookup_insert_eq; simpl)).
  eexists. split; [reflexivity|]. simpl.
  rewrite insert_insert_eq, <- app_assoc. auto.
Qed.

Lemma flip_state_unregistered w r o :
  Control.State (Control.control w) = Some r ->
  Control.objs w !! r = Some o ->
  Control.state_dict (Control.control w) !! _State.next (_State.self o) = None ->
  exists w',
    Control.flip_state w = (Raise (KeyError (_State.next (_State.self o))), w')
    /\ Control.control w' =
         Control.set_state_name (_State.next (_State.self o)) (Control.control w)
    /\ Control.objs w' = <[r := left o]> (Control.objs w)
    /\ Control.calls w' =
         Control.calls w ++ [CallCleanup r (_State.persist (_State.self o))]
    /\ Control.dicts w' = Control.dicts w.
Proof.
  intros HS Ho Hd.
  unfold Control.flip_state, Control.call_cleanup,
    Control.on_self, Control.the_State, Control.load, left in *.
  eff.
  repeat (progress (rewrite ?HS, ?Ho, ?Hd; simpl)).
  eexists. split; [reflexivity|]. simpl. auto.
Qed.

(** What a [flip_state] that returns has gone through. *)
Lemma flip_state_Ok_inv w w' :
  Control.flip_state w = (Ok tt, w') ->
  exists r o r' o',
    Control.State (Control.control w) = Some r
    /\ Control.objs w !! r = Some o
    /\ Control.state_dict (Control.control w) !! _State.next (_State.self o) = Some r'
    /\ <[r := left o]> (Control.objs w) !! r' = Some o'.
Proof.
  intros H.
  destruct (Control.State (Control.control w)) as [r|] eqn:HS.
  2:{ unfold Control.flip_state, Control.the_State in H. eff.
      rewrite HS in H. discriminate. }
  destruct (Control.objs w !! r) as [o|] eqn:Ho.
  2:{ unfold Control.flip_state, Control.the_State, Control.load in H. eff.
      rewrite HS in H. simpl in H. rewrite Ho in H. discriminate. }
  destruct (Control.state_dict (Control.control w) !! _State.next (_State.self o))
    as [r'|] eqn:Hd.
  2:{ destruct (flip_state_unregistered w r o HS Ho Hd) as (w1 & E & _).
      rewrite E in H. discriminate. }
  destruct (<[r := left o]> (Control.objs w) !! r') as [o'|] eqn:Ho'.
  { exists r, o, r', o'. auto. }
  exfalso. revert H.
  unfold Control.flip_state, Control.call_cleanup, Control.call_startup,
    Control.on_self, Control.the_State, Control.load, left in *.
  eff.
  repeat (progress (rewrite ?HS, ?Ho, ?Hd, ?Ho'; simpl)).
  discriminate.
Qed.

(** C2, as amended: [startup(p)] stores [p] as the state's [persist]
    and sets [start_time] to the current time; it returns normally and
    leaves [done], like every other attribute, as it was. *)
Theorem startup_stores_persist_and_time dev p a :
  exists a',
    _State.startup dev p a = (Ok tt, a')
    /\ _State.persist a' = p
    /\ _State.start_time a' = time_get_ticks dev
    /\ _State.done a' = _State.done a
    /\ _State.quit a' = _State.quit a
    /\ _State.next a' = _State.next a
    /\ _State.previous a' = _State.previous a
    /\ _State.extra a' = _State.extra a.
Proof. eexists. split; [reflexivity|]. simpl. auto 10. Qed.

(** C3: when [next] names no key of [state_dict], [flip_state] raises
    [KeyError] for that name, and it does so before any instance other
    than the outgoing one is touched: the controller still refers to the
    outgoing state, no [startup] has been entered, and every other
    instance and every [persist] dictionary is as before. *)
Theorem flip_state_unregistered_raises w r o :
  Control.State (Control.control w) = Some r ->
  Control.objs w !! r = Some o ->
  Control.state_dict (Control.control w) !! _State.next (_State.self o) = None ->
  exists w',
    Control.flip_state w = (Raise (KeyError (_State.next (_State.self o))), w')
    /\ Control.State (Control.control w') = Some r
    /\ (forall r', r' ≠ r -> Control.objs w' !! r' = Control.objs w !! r')
    /\ since (Control.calls w) w' = [CallCleanup r (_State.persist (_State.self o))]
    /\ Control.dicts w' = Control.dicts w.
Proof.
  intros HS Ho Hd.
  destruct (flip_state_unregistered w r o HS Ho Hd) as (w' & E & Hc & Hobjs & Hcalls & Hdicts).
  exists w'. split; [exact E|].
  split; [rewrite Hc; exact HS|].
  split; [intros r' Hne; rewrite Hobjs; by apply lookup_insert_ne|].
  split; [|exact Hdicts].
  unfold since. rewrite Hcalls. by rewrite drop_app_length.
Qed.

(** C4: in a transition between two registered states, [cleanup] of the
    outgoing state is called first and [startup] of the incoming state
    second, nothing in between, and the dictionary [cleanup] returned is
    the very one [startup] receives and the incoming state then holds
    as its [persist]; no dictionary is modified on the way. *)
Theorem cleanup_then_startup_same_persist w r o r' :
  Control.State (Control.control w) = Some r ->
  Control.objs w !! r = Some o ->
  Control.state_dict (Control.control w) !! _State.next (_State.self o) = Some r' ->
  is_Some (Control.objs w !! r') ->
  exists w' o',
    Control.flip_state w = (Ok tt, w')
    /\ since (Control.calls w) w' =
         [CallCleanup r (_State.persist (_State.self o));
          CallStartup r' (_State.persist (_State.self o))]
    /\ Control.State (Control.control w') = Some r'
    /\ Control.objs w' !! r' = Some o'
    /\ _State.persist (_State.self o') = _State.persist (_State.self o)
    /\ Control.dicts w' = Control.dicts w.
Proof.
  intros HS Ho Hd Hr'.
  assert (exists o1, <[r := left o]> (Control.objs w) !! r' = Some o1) as [o1 Ho1].
  { destruct (decide (r = r')) as [->|Hne].
    - rewrite lookup_insert_eq. eauto.
    - rewrite lookup_insert_ne by done. exact Hr'. }
  destruct (flip_state_ok w r o r' o1 HS Ho Hd Ho1)
    as (w' & E & Hc & Hobjs & Hcalls & Hdicts).
  exists w', (entered (Control.device w) (_State.persist (_State.self o))
                (Control.state_name (Control.control w)) o1).
  split; [exact E|].
  split; [unfold since; rewrite Hcalls; by rewrite drop_app_length|].
  split; [by rewrite Hc|].
  split; [rewrite Hobjs; apply lookup_insert_eq|].
  split; [reflexivity|exact Hdicts].
Qed.

(** C5: after a completed transition, [previous] of the new current
    state is the name the controller had for the state that was current
    just before. *)
Theorem flip_state_sets_previous w w' :
  Control.flip_state w = (Ok tt, w') ->
  exists r' o',
    Control.State (Control.control w') = Some r'
    /\ Control.objs w' !! r' = Some o'
    /\ _State.previous (_State.self o') = Control.state_name (Control.control w).
Proof.
  intros H.
  destruct (flip_state_Ok_inv w w' H) as (r & o & r' & o1 & HS & Ho & Hd & Ho1).
  destruct (flip_state_ok w r o r' o1 HS Ho Hd Ho1)
    as (w2 & E & Hc & Hobjs & _).
  rewrite E in H. injection H as <-.
  exists r', (entered (Control.device w) (_State.persist (_State.self o))
                (Control.state_name (Control.control w)) o1).
  split; [by rewrite Hc|].
  split; [rewrite Hobjs; apply lookup_insert_eq|reflexivity].
Qed.

(** *** Who is touched *)

Lemma quiet_refl w : quiet w w.
Proof. by split. Qed.

Lemma quiet_trans w1 w2 w3 : quiet w1 w2 -> quiet w2 w3 -> quiet w1 w3.
Proof.
  intros [E1 F1] [E2 F2]. split; [congruence|].
  intros x Hx. rewrite F2, F1; [done..|congruence].
Qed.

Lemma call_get_event_quiet event w res w' :
  Control.call_get_event event w = (res, w') -> quiet w w'.
Proof.
  unfold Control.call_get_event, Control.the_State, Control.load,
    Control.on_self, Control.load, Control.missing_arguments, Control.log.
  eff. intros H.
  destruct (Control.State (Control.control w)) as [r|] eqn:HS; simpl in H;
    [|injection H as <- <-; by split].
  destruct (Control.objs w !! r) as [o|] eqn:Ho; simpl in H;
    [|injection H as <- <-; by split].
  destruct (_State.def_get_event (_State.cls o)) as [body|]; simpl in H;
    [|injection H as <- <-; by split].
  rewrite Ho in H. simpl in H.
  destruct (body (Control.device w) event (_State.self o)) as [res1 a1].
  injection H as <- <-. split; simpl; [done|].
  intros x Hx. apply lookup_insert_ne. congruence.
Qed.

Lemma call_update_spec w res w' :
  Control.call_update w = (res, w') ->
  quiet w w'
  /\ Control.control w' = Control.control w
  /\ forall r o, Control.State (Control.control w) = Some r ->
       Control.objs w !! r = Some o ->
       Control.calls w' = Control.calls w ++ [CallUpdate r].
Proof.
  unfold Control.call_update, Control.the_State, Control.load,
    Control.on_self_and_screen, Control.load, Control.log.
  eff. intros H.
  destruct (Control.State (Control.control w)) as [r|] eqn:HS; simpl in H;
    [|injection H as <- <-; repeat split; done].
  destruct (Control.objs w !! r) as [o|] eqn:Ho; simpl in H;
    [|injection H as <- <-; repeat split; congruence].
  assert (forall body : Eff (_State.attrs X * Surface) unit,
    (let (r0, t) := body (_State.self o, Control.screen w) in
     (r0, Control.set_screen t.2
            (Control.set_objs (<[r:=_State.set_self t.1 o]> (Control.objs w))
               (Control.set_calls (Control.calls w ++ [CallUpdate r]) w))))
    = (res, w') ->
    quiet w w' /\ Control.control w' = Control.control w
    /\ Control.calls w' = Control.calls w ++ [CallUpdate r]) as Hbody.
  { intros body Hb. destruct (body _) as [r0 t]. injection Hb as <- <-.
    simpl. split; [split; simpl; rewrite ?HS; [done|]|split; done].
    intros x Hx. apply lookup_insert_ne. congruence. }
  assert (quiet w w' /\ Control.control w' = Control.control w
          /\ Control.calls w' = Control.calls w ++ [CallUpdate r])
    as (Q & C & K).
  { destruct (_State.def_update (_State.cls o)) as [body|]; simpl in H;
      rewrite Ho in H; simpl in H.
    - eapply Hbody; exact H.
    - apply (Hbody (fun s => (Ok tt, s))). exact H. }
  split; [done|]. split; [done|].
  intros r1 o1 [= <-] _. done.
Qed.

Lemma Quiet_ret {A} (v : A) : Quiet (X:=X) (mret v).
Proof. intros w res w' [= <- <-]. apply quiet_refl. Qed.

Lemma Quiet_raise {A} e : Quiet (X:=X) (raise e : Eff _ A).
Proof. intros w res w' [= <- <-]. apply quiet_refl. Qed.

Lemma Quiet_gets {A} (f : Control.World X -> A) : Quiet (gets f).
Proof. intros w res w' [= <- <-]. apply quiet_refl. Qed.

Lemma Quiet_bind {A B} (c : Eff (Control.World X) A) (k : A -> Eff (Control.World X) B) :
  Quiet c -> (forall v, Quiet (k v)) -> Quiet (c ≫= k).
Proof.
  intros Hc Hk w res w'. unfold mbind, Eff_bind.
  destruct (c w) as [[v|e] w1] eqn:E; intros H.
  - eapply quiet_trans; [eapply Hc, E|eapply Hk, H].
  - injection H as <- <-. eapply Hc, E.
Qed.

Lemma Quiet_modify (f : Control.World X -> Control.World X) :
  (forall w, Control.State (Control.control (f w)) = Control.State (Control.control w)) ->
  (forall w, Control.objs (f w) = Control.objs w) ->
  Quiet (modify f).
Proof.
  intros HS Ho w res w' [= <- <-]. split; [apply HS|].
  intros x _. by rewrite Ho.
Qed.

Lemma Quiet_assign (f : Control.attrs -> Control.attrs) :
  (forall c, Control.State (f c) = Control.State c) -> Quiet (X:=X) (Control.assign f).
Proof. intros Hf. apply Quiet_modify; intros w; simpl; auto. Qed.

Lemma Quiet_call_get_event event : Quiet (X:=X) (Control.call_get_event event).
Proof. intros w res w'. apply call_get_event_quiet. Qed.

Lemma Quiet_call_update : Quiet (X:=X) Control.call_update.
Proof. intros w res w' H. by apply call_update_spec in H as [? _]. Qed.

Lemma Quiet_toggle_show_fps : Quiet (X:=X) Control.toggle_show_fps.
Proof.
  unfold Control.toggle_show_fps, Control.set_caption.
  apply Quiet_bind; [apply Quiet_gets|intros c].
  apply Quiet_bind.
  { destruct (Control.keys c K_F5); [by apply Quiet_assign|apply Quiet_ret]. }
  intros _. apply Quiet_bind; [apply Quiet_gets|intros c'].
  destruct (negb (Control.show_fps c')); [by apply Quiet_modify|apply Quiet_ret].
Qed.

Lemma Quiet_for_event events : Quiet (X:=X) (Control.for_event events).
Proof.
  induction events as [|event rest IH]; simpl; [apply Quiet_ret|].
  apply Quiet_bind; [apply Quiet_gets|intros dev].
  apply Quiet_bind.
  { destruct (ev_type event);
      try (by apply Quiet_assign); try apply Quiet_ret;
      (apply Quiet_bind; [by apply Quiet_assign|intros _; apply Quiet_toggle_show_fps]). }
  intros _. apply Quiet_bind; [apply Quiet_call_get_event|intros _; exact IH].
Qed.

Lemma Quiet_event_loop : Quiet (X:=X) Control.event_loop.
Proof.
  unfold Control.event_loop.
  apply Quiet_bind; [apply Quiet_gets|intros events].
  apply Quiet_bind; [by apply Quiet_modify|intros _; apply Quiet_for_event].
Qed.

(** A transition touches the outgoing and the incoming instance only. *)
Lemma flip_state_frame w w' x :
  Control.flip_state w = (Ok tt, w') ->
  Control.State (Control.control w) ≠ Some x ->
  Control.State (Control.control w') ≠ Some x ->
  Control.objs w' !! x = Control.objs w !! x.
Proof.
  intros H Hx Hx'.
  destruct (flip_state_Ok_inv w w' H) as (r & o & r' & o1 & HS & Ho & Hd & Ho1).
  destruct (flip_state_ok w r o r' o1 HS Ho Hd Ho1)
    as (w2 & E & Hc & Hobjs & _).
  rewrite E in H. injection H as <-.
  rewrite Hc in Hx'. simpl in Hx'. rewrite HS in Hx.
  rewrite Hobjs, !lookup_insert_ne by congruence. done.
Qed.

(** The two ways [Control.update] returns: without a transition, or
    with one in front of the call of [update]. *)
Lemma update_Ok_inv w w' :
  Control.update w = (Ok tt, w') ->
  exists r o,
    Control.State (Control.control w) = Some r
    /\ Control.objs w !! r = Some o
    /\ ((_State.quit (_State.self o) = true
         /\ Control.call_update
              (Control.set_control (Control.set_done true (Control.control w)) w)
            = (Ok tt, w'))
        \/ (_State.quit (_State.self o) = false
            /\ _State.done (_State.self o) = false
            /\ Control.call_update w = (Ok tt, w'))
        \/ (_State.quit (_State.self o) = false
            /\ _State.done (_State.self o) = true
            /\ exists w1, Control.flip_state w = (Ok tt, w1)
                 /\ Control.call_update w1 = (Ok tt, w'))).
Proof.
  unfold Control.update, Control.the_State, Control.load, Control.assign.
  eff. intros H.
  destruct (Control.State (Control.control w)) as [r|] eqn:HS; simpl in H; [|done].
  destruct (Control.objs w !! r) as [o|] eqn:Ho; simpl in H; [|done].
  exists r, o. split; [done|]. split; [done|].
  destruct (_State.quit (_State.self o)); simpl in H; [left; done|].
  destruct (_State.done (_State.self o)); simpl in H; [|right; left; done].
  right; right. split; [done|]. split; [done|].
  destruct (Control.flip_state w) as [[[]|e] w1]; [|done].
  exists w1. done.
Qed.

Lemma perform_frame st w w' x :
  perform st w = (Ok tt, w') ->
  Control.State (Control.control w) ≠ Some x ->
  Control.State (Control.control w') ≠ Some x ->
  Control.objs w' !! x = Control.objs w !! x.
Proof.
  destruct st; simpl; intros H Hx Hx'.
  - injection H as <-. done.
  - by apply Quiet_event_loop in H as [_ F]; apply F.
  - destruct (update_Ok_inv w w' H) as (r & o & HS & Ho & [(_ & U)|[(_ & _ & U)|(_ & _ & w1 & Fl & U)]]).
    + apply call_update_spec in U as [[_ F] _]. by apply F.
    + apply call_update_spec in U as [[_ F] _]. by apply F.
    + apply call_update_spec in U as [[E F] _].
      rewrite E in Hx'. rewrite F by done. by eapply flip_state_frame.
  - by apply call_update_spec in H as [[_ F] _]; apply F.
  - by eapply flip_state_frame.
  - revert H. unfold present, Control.set_caption. eff.
    destruct (Control.show_fps _); by intros [= <-].
Qed.

Lemma elsewhere_frame s steps w w' :
  elsewhere s steps w = Some w' ->
  Control.State (Control.control w) ≠ Some s ->
  Control.State (Control.control w') ≠ Some s
  /\ Control.objs w' !! s = Control.objs w !! s.
Proof.
  revert w. induction steps as [|st rest IH]; simpl; intros w H Hs.
  { injection H as <-. done. }
  destruct (perform st w) as [[[]|e] w1] eqn:E; [|done].
  destruct (decide (Control.State (Control.control w1) = Some s)) as [|Hs1]; [done|].
  destruct (IH w1 H Hs1) as [Hs' F]. split; [done|].
  rewrite F. by eapply perform_frame.
Qed.

(** C6: let instance [s] be the current state and be left by a
    transition; whatever the controller and the environment do while
    [s] is not current, when a later transition makes [s] current again
    its [done] is false at that moment. *)
Theorem reentered_state_not_done w0 s w1 steps w2 w3 :
  Control.State (Control.control w0) = Some s ->
  Control.flip_state w0 = (Ok tt, w1) ->
  Control.State (Control.control w1) ≠ Some s ->
  elsewhere s steps w1 = Some w2 ->
  Control.flip_state w2 = (Ok tt, w3) ->
  Control.State (Control.control w3) = Some s ->
  exists o, Control.objs w3 !! s = Some o /\ _State.done (_State.self o) = false.
Proof.
  intros HS0 Hout Haway Hrun Hin Hback.
  (* leaving: cleanup has reset done *)
  destruct (flip_state_Ok_inv w0 w1 Hout) as (r & o & r' & o1 & HS & Ho & Hd & Ho1).
  destruct (flip_state_ok w0 r o r' o1 HS Ho Hd Ho1) as (w & E & Hc & Hobjs & _).
  rewrite E in Hout. injection Hout as ->.
  assert (r = s) as -> by congruence.
  assert (r' ≠ s) as Hne by (rewrite Hc in Haway; simpl in Haway; congruence).
  assert (Control.objs w1 !! s = Some (left o)) as Hs1.
  { rewrite Hobjs, lookup_insert_ne by done. apply lookup_insert_eq. }
  (* elsewhere: nobody touches s *)
  destruct (elsewhere_frame s steps w1 w2 Hrun Haway) as [Hs2 F].
  (* coming back: startup and previous leave done alone *)
  destruct (flip_state_Ok_inv w2 w3 Hin) as (q & oq & q' & o2 & HSq & Hoq & Hdq & Ho2).
  destruct (flip_state_ok w2 q oq q' o2 HSq Hoq Hdq Ho2) as (w & E2 & Hc2 & Hobjs2 & _).
  rewrite E2 in Hin. injection Hin as ->.
  assert (q' = s) as -> by (rewrite Hc2 in Hback; simpl in Hback; congruence).
  assert (q ≠ s) as Hq by congruence.
  rewrite lookup_insert_ne in Ho2 by done.
  rewrite F, Hs1 in Ho2. injection Ho2 as <-.
  eexists. split; [rewrite Hobjs2; apply lookup_insert_eq|reflexivity].
Qed.

(** Whatever way [flip_state] ends, it calls no [update]. *)
Lemma flip_state_no_update w res w' :
  Control.flip_state w = (res, w') ->
  exists l, Control.calls w' = Control.calls w ++ l /\ updates l = [].
Proof.
  intros H.
  destruct (Control.State (Control.control w)) as [r|] eqn:HS.
  2:{ unfold Control.flip_state, Control.the_State in H. eff.
      rewrite HS in H. injection H as <- <-. exists []. by rewrite app_nil_r. }
  destruct (Control.objs w !! r) as [o|] eqn:Ho.
  2:{ unfold Control.flip_state, Control.the_State, Control.load in H. eff.
      rewrite HS in H. simpl in H. rewrite Ho in H.
      injection H as <- <-. exists []. by rewrite app_nil_r. }
  destruct (Control.state_dict (Control.control w) !! _State.next (_State.self o))
    as [r'|] eqn:Hd.
  2:{ destruct (flip_state_unregistered w r o HS Ho Hd) as (w1 & E & _ & _ & Hc & _).
      rewrite E in H. injection H as <- <-. eauto. }
  destruct (<[r := left o]> (Control.objs w) !! r') as [o'|] eqn:Ho'.
  { destruct (flip_state_ok w r o r' o' HS Ho Hd Ho') as (w1 & E & _ & _ & Hc & _).
    rewrite E in H. injection H as <- <-. eauto. }
  revert H.
  unfold Control.flip_state, Control.call_cleanup, Control.call_startup,
    Control.on_self, Control.the_State, Control.load, left in *.
  eff.
  repeat (progress (rewrite ?HS, ?Ho, ?Hd, ?Ho'; simpl)).
  intros [= <- <-]. simpl. eauto.
Qed.

(** X13: a call of [Control.update] calls [update] at most once, however it
    ends. *)
Lemma update_at_most_once w res w' :
  Control.update w = (res, w') ->
  exists l, Control.calls w' = Control.calls w ++ l /\ length (updates l) ≤ 1.
Proof.
  assert (forall w0 res0 w1, Control.call_update w0 = (res0, w1) ->
            exists l, Control.calls w1 = Control.calls w0 ++ l /\ length (updates l) ≤ 1)
    as Hcall.
  { intros w0 res0 w1 U.
    destruct (Control.State (Control.control w0)) as [r|] eqn:HS.
    2:{ unfold Control.call_update, Control.the_State in U. eff.
        rewrite HS in U. injection U as <- <-. exists []. split; [by rewrite app_nil_r|unfold updates; simpl; lia]. }
    destruct (Control.objs w0 !! r) as [o|] eqn:Ho.
    2:{ unfold Control.call_update, Control.the_State, Control.load in U. eff.
        rewrite HS in U. simpl in U. rewrite Ho in U.
        injection U as <- <-. exists []. split; [by rewrite app_nil_r|unfold updates; simpl; lia]. }
    apply call_update_spec in U as (_ & _ & K).
    exists [CallUpdate r]. split; [by eapply K|unfold updates; simpl; lia]. }
  unfold Control.update, Control.the_State, Control.load, Control.assign.
  eff. intros H.
  destruct (Control.State (Control.control w)) as [r|] eqn:HS; simpl in H.
  2:{ injection H as <- <-. exists []. split; [by rewrite app_nil_r|unfold updates; simpl; lia]. }
  destruct (Control.objs w !! r) as [o|] eqn:Ho; simpl in H.
  2:{ injection H as <- <-. exists []. split; [by rewrite app_nil_r|unfold updates; simpl; lia]. }
  destruct (_State.quit (_State.self o)); simpl in H; [by apply Hcall in H|].
  destruct (_State.done (_State.self o)); simpl in H; [|by apply Hcall in H].
  destruct (Control.flip_state w) as [[[]|e] w1] eqn:Fl.
  - apply flip_state_no_update in Fl as (l1 & E1 & N1).
    apply Hcall in H as (l2 & E2 & N2).
    exists (l1 ++ l2). split; [by rewrite E2, E1, app_assoc|].
    unfold updates in *. rewrite omap_app, N1. done.
  - apply flip_state_no_update in Fl as (l1 & E1 & N1).
    injection H as <- <-. exists l1. split; [done|]. rewrite N1. simpl. lia.
Qed.

(** C7, as amended: a call of [Control.update] that returns has called
    [update] exactly once, on the state that is current when it returns,
    and as the last call of the frame: either no transition took place and
    the call is the only one, or [cleanup] of the old state and [startup]
    of the new one came first, in this order, and the call went to the new
    state. *)
Theorem one_update_per_frame w w' :
  Control.update w = (Ok tt, w') ->
  exists r0 r,
    Control.State (Control.control w) = Some r0
    /\ Control.State (Control.control w') = Some r
    /\ ((r = r0 /\ since (Control.calls w) w' = [CallUpdate r])
        \/ exists p, since (Control.calls w) w' =
                       [CallCleanup r0 p; CallStartup r p; CallUpdate r]).
Proof.
  intros H.
  destruct (update_Ok_inv w w' H)
    as (r & o & HS & Ho & [(_ & U)|[(_ & _ & U)|(_ & _ & w1 & Fl & U)]]).
  - apply call_update_spec in U as ([E _] & _ & K). simpl in *.
    exists r, r. split; [done|]. split; [congruence|]. left. split; [done|].
    unfold since. rewrite (K r o HS Ho). by rewrite drop_app_length.
  - apply call_update_spec in U as ([E _] & _ & K).
    exists r, r. split; [done|]. split; [congruence|]. left. split; [done|].
    unfold since. rewrite (K r o HS Ho). by rewrite drop_app_length.
  - destruct (flip_state_Ok_inv w w1 Fl) as (r1 & o1 & r' & o' & HS1 & Ho1 & Hd & Ho').
    destruct (flip_state_ok w r1 o1 r' o' HS1 Ho1 Hd Ho')
      as (w2 & E & Hc & Hobjs & Hcalls & _).
    rewrite E in Fl. injection Fl as ->.
    assert (r1 = r) as -> by congruence.
    assert (Control.State (Control.control w1) = Some r') as HS' by (by rewrite Hc).
    apply call_update_spec in U as ([E' _] & _ & K).
    exists r, r'. split; [done|]. split; [congruence|]. right.
    exists (_State.persist (_State.self o1)).
    unfold since. erewrite K; [|exact HS'|rewrite Hobjs; apply lookup_insert_eq].
    rewrite Hcalls, <- app_assoc. by rewrite drop_app_length.
Qed.

Lemma main_done env w :
  Control.done (Control.control w) = true -> Control.main env w = (Ok true, w).
Proof. intros H. destruct env; simpl; eff; by rewrite H. Qed.

(** One pass of the [while] of [main], given how [event_loop] and
    [update] went. *)
Lemma main_pass f env w w1 w2 :
  Control.done (Control.control w) = false ->
  Control.event_loop (Control.arrive f w) = (Ok tt, w1) ->
  Control.update w1 = (Ok tt, w2) ->
  exists w3,
    Control.iteration (Control.arrive f w) = (Ok tt, w3)
    /\ Control.main (f :: env) w = Control.main env w3
    /\ Control.control w3 = Control.control w2
    /\ Control.objs w3 = Control.objs w2
    /\ Control.calls w3 = Control.calls w2.
Proof.
  intros Hd He Hu.
  assert (exists w3, Control.iteration (Control.arrive f w) = (Ok tt, w3)
            /\ Control.control w3 = Control.control w2
            /\ Control.objs w3 = Control.objs w2
            /\ Control.calls w3 = Control.calls w2) as (w3 & Hi & ?).
  { unfold Control.iteration, Control.set_caption. eff. rewrite He, Hu.
    destruct (Control.show_fps (Control.control w2)); eexists; split; try reflexivity; done. }
  exists w3. split; [done|]. split; [|done].
  simpl. eff. rewrite Hd. simpl. by rewrite Hi.
Qed.

(** C1, as amended: when the current state has [quit] set after the
    events of a frame were dispatched, [Control.update] still calls that
    state's [update], once, as the only call it makes, and sets the
    controller's [done]; [main] then leaves its loop at the end of this
    same pass, whatever the environment would have delivered next, and
    makes no further call. *)
Theorem quit_updates_once_then_stops w f env w1 w2 r o :
  Control.done (Control.control w) = false ->
  Control.event_loop (Control.arrive f w) = (Ok tt, w1) ->
  Control.State (Control.control w1) = Some r ->
  Control.objs w1 !! r = Some o ->
  _State.quit (_State.self o) = true ->
  Control.update w1 = (Ok tt, w2) ->
  since (Control.calls w1) w2 = [CallUpdate r]
  /\ exists w3,
       Control.main (f :: env) w = (Ok true, w3)
       /\ Control.done (Control.control w3) = true
       /\ Control.calls w3 = Control.calls w2.
Proof.
  intros Hd He HS Ho Hq Hu.
  destruct (update_Ok_inv w1 w2 Hu)
    as (r1 & o1 & HS1 & Ho1 & [(_ & U)|[(Hq' & _)|(Hq' & _)]]);
    assert (r1 = r) as -> by congruence;
    assert (o1 = o) as -> by congruence;
    try congruence.
  apply call_update_spec in U as (_ & Hc & K). simpl in Hc, K.
  split.
  { unfold since. rewrite (K r o HS Ho). by rewrite drop_app_length. }
  destruct (main_pass f env w w1 w2 Hd He Hu) as (w3 & _ & Hm & Hc3 & _ & Hcalls).
  exists w3. rewrite Hm.
  assert (Control.done (Control.control w3) = true) as Hd3 by (by rewrite Hc3, Hc).
  split; [by apply main_done|]. done.
Qed.

(** C10: when the class of the current state inherits [get_event], the
    first event that [event_loop] dispatches raises [TypeError] for the
    parameters [keys] and [mouse] of [_State.get_event], which the call
    leaves without a value; the method is never entered and no instance
    is touched. *)
Theorem inherited_get_event_raises w r o event rest :
  Control.event_queue w = event :: rest ->
  Control.State (Control.control w) = Some r ->
  Control.objs w !! r = Some o ->
  _State.def_get_event (_State.cls o) = None ->
  exists w',
    Control.event_loop w = (Raise (TypeError "get_event" ["keys"; "mouse"]), w')
    /\ Control.calls w' = Control.calls w
    /\ Control.objs w' = Control.objs w.
Proof.
  intros Hq HS Ho Hcls.
  unfold Control.event_loop. eff. rewrite Hq. simpl. eff.
  unfold Control.call_get_event, Control.the_State, Control.load,
    Control.missing_arguments, Control.toggle_show_fps, Control.set_caption,
    Control.assign.
  eff.
  destruct (ev_type event); simpl;
    repeat (progress (rewrite ?HS, ?Ho, ?Hcls; simpl));
    try (eexists; split; [reflexivity|done]).
  - destruct (key_get_pressed (Control.device w) K_F5); simpl;
      destruct (Control.show_fps (Control.control w)); simpl;
      repeat (progress (rewrite ?HS, ?Ho, ?Hcls; simpl));
      eexists; (split; [reflexivity|done]).
  - destruct (key_get_pressed (Control.device w) K_F5); simpl;
      destruct (Control.show_fps (Control.control w)); simpl;
      repeat (progress (rewrite ?HS, ?Ho, ?Hcls; simpl));
      eexists; (split; [reflexivity|done]).
Qed.
End Lifecycle.

(** ** Suns and pictures *)

Lemma list_remove_subseteq x l l' : list_remove x l = Some l' -> l' ⊆ l.
Proof.
  revert l'. induction l as [|y l IH]; simpl; intros l' H; [done|].
  destruct (decide (y = x)) as [->|Hne].
  - injection H as [= <-]. set_solver.
  - destruct (list_remove x l) as [l1|]; simpl in H; [|done].
    injection H as [= <-]. specialize (IH l1 eq_refl). set_solver.
Qed.

Section Suns.
Context {Sun : Type}.
Variable image : Sun -> string.
Variable image_rect : Sun -> Rect.
Variable mask : Sun -> Mask.

Implicit Types (st : _State.attrs (Story.data Sun) * Surface).

(** The loop of [sun_updates] writes no [Sun], takes at most one out of
    [self.suns], and goes the same way whatever [Sun.update] would do. *)
Lemma for_obj_spec update dev copy st :
  let r := Story.for_obj image image_rect mask update dev copy st in
  Story.sun_objs (_State.extra r.2.1) = Story.sun_objs (_State.extra st.1)
  /\ Story.suns (_State.extra r.2.1) ⊆ Story.suns (_State.extra st.1)
  /\ forall update', Story.for_obj image image_rect mask update' dev copy st = r.
Proof.
  revert st. induction copy as [|r rest IH]; intros st; [by simpl|].
  assert (forall op,
    let r := Story.for_obj image image_rect mask update dev rest (st.1, st.2 ++ [op]) in
    Story.sun_objs (_State.extra r.2.1) = Story.sun_objs (_State.extra st.1)
    /\ Story.suns (_State.extra r.2.1) ⊆ Story.suns (_State.extra st.1)
    /\ forall update', Story.for_obj image image_rect mask update' dev rest
                         (st.1, st.2 ++ [op]) = r) as Hrest.
  { intros op. apply (IH (st.1, st.2 ++ [op])). }
  simpl. unfold Story.the_sun, Story.suns_remove, Story.on_data, Story.draw, get_at.
  eff.
  destruct (Story.sun_objs (_State.extra st.1) !! r) as [obj|]; simpl; [|done].
  destruct (collidepoint _ _ && _); simpl; [|apply Hrest].
  destruct (bool_decide _ && bool_decide _); simpl; [|done].
  destruct (mask_bit _ _ _); simpl; [apply Hrest|].
  destruct ((mouse_get_pressed dev).1.1); simpl; [|apply Hrest].
  destruct (list_remove r _) as [l'|] eqn:E; simpl; [|done].
  split; [done|]. split; [|done]. by eapply list_remove_subseteq.
Qed.

(** C9: [sun_updates] evaluates [obj.update] and drops it: the run is
    the same whatever the method [Sun.update] does, and when it ends, by
    returning or by raising, every [Sun] is in the state it was in
    before; the only change to [self.suns] is the removal of a clicked
    sun. *)
Theorem sun_updates_never_calls_update update dev st :
  let r := Story.sun_updates image image_rect mask update dev st in
  Story.sun_objs (_State.extra r.2.1) = Story.sun_objs (_State.extra st.1)
  /\ Story.suns (_State.extra r.2.1) ⊆ Story.suns (_State.extra st.1)
  /\ forall update', Story.sun_updates image image_rect mask update' dev st = r.
Proof.
  unfold Story.sun_updates. eff. apply for_obj_spec.
Qed.
End Suns.

Lemma for_pic_spec fs directory colorkey accept pics g0 :
  (forall pic, pic ∈ pics -> accepted accept pic = true ->
     is_Some (image_load fs (path_join directory pic))) ->
  exists g,
    for_pic fs directory colorkey accept pics g0 = (Ok tt, g)
    /\ dom g = dom g0 ∪ list_to_set ((fun pic => (splitext pic).1)
                         <$> filter (fun pic => accepted accept pic = true) pics)
    /\ forall k v, g !! k = Some v ->
         g0 !! k = Some v
         \/ exists pic img,
              pic ∈ pics /\ accepted accept pic = true /\ (splitext pic).1 = k
              /\ image_load fs (path_join directory pic) = Some img
              /\ v = as_displayed colorkey img.
Proof.
  revert g0. induction pics as [|pic rest IH]; intros g0 Hload.
  { exists g0. split; [done|]. split; [set_solver|]. auto. }
  simpl. unfold accepted in *.
  destruct (splitext pic) as [nm ext] eqn:Hsplit. eff.
  destruct (bool_decide (lower ext ∈ accept)) eqn:Hacc.
  - destruct (Hload pic) as [img Himg]; [set_solver|by rewrite Hsplit|].
    rewrite Himg. simpl.
    destruct (IH (<[nm := as_displayed colorkey img]> g0)) as (g & E & Hdom & Hent).
    { intros p Hp. apply Hload. set_solver. }
    exists g. split; [done|]. split.
    + rewrite Hdom, dom_insert_L, filter_cons_True by (by rewrite Hsplit).
      rewrite fmap_cons, Hsplit. simpl. set_solver.
    + intros k v Hk. destruct (Hent k v Hk) as [H0|(p & i & Hp & ?)].
      * destruct (decide (nm = k)) as [<-|Hne].
        -- rewrite lookup_insert_eq in H0. injection H0 as <-.
           right. exists pic, img. rewrite Hsplit. simpl.
           split; [set_solver|done].
        -- rewrite lookup_insert_ne in H0 by done. by left.
      * right. exists p, i. split; [set_solver|done].
  - destruct (IH g0) as (g & E & Hdom & Hent).
    { intros p Hp. apply Hload. set_solver. }
    exists g. split; [done|]. split.
    + rewrite Hdom, filter_cons_False; [done|]. rewrite Hsplit. simpl. by rewrite Hacc.
    + intros k v Hk. destruct (Hent k v Hk) as [H0|(p & i & Hp & ?)]; [by left|].
      right. exists p, i. split; [set_solver|done].
Qed.

(** C8, as amended: when the directory can be listed and every accepted
    file loads, [load_all_gfx] returns a mapping whose keys are exactly
    the names, extension stripped, of the files whose lowercased extension
    is in [accept]; each entry is a loaded file of that name, converted
    with [convert_alpha] when [get_alpha()] is true, and otherwise with
    [convert] and given the colorkey. *)
Theorem load_all_gfx_keys_and_conversion fs directory colorkey accept pics :
  listdir fs directory = Some pics ->
  (forall pic, pic ∈ pics -> accepted accept pic = true ->
     is_Some (image_load fs (path_join directory pic))) ->
  exists g,
    load_all_gfx fs directory colorkey accept = Ok g
    /\ dom g = list_to_set ((fun pic => (splitext pic).1)
                  <$> filter (fun pic => accepted accept pic = true) pics)
    /\ forall k v, g !! k = Some v ->
         exists pic img,
           pic ∈ pics /\ accepted accept pic = true /\ (splitext pic).1 = k
           /\ image_load fs (path_join directory pic) = Some img
           /\ v = if truthy (get_alpha img) then convert_alpha img
                  else set_colorkey colorkey (convert img).
Proof.
  intros Hdir Hload. unfold load_all_gfx. rewrite Hdir.
  destruct (for_pic_spec fs directory colorkey accept pics ∅ Hload) as (g & E & Hdom & Hent).
  exists g. rewrite E. split; [done|]. split.
  - rewrite Hdom, dom_empty_L. set_solver.
  - intros k v Hk. destruct (Hent k v Hk) as [H0|H1]; [by rewrite lookup_empty in H0|].
    exact H1.
Qed.


(** ** The scenarios *)

(** [startup] on a state whose [done] is set leaves it set. *)
Lemma startup_keeps_done :
  ~ startup_resets Scenario.idle 1 (_State.set_done true (_State.__init__ Scenario.idle 0 tt)).
Proof. intros (_ & H & _). discriminate H. Qed.

(** A click while [A] is current: [A.get_event] sets [quit], and
    [Control.update] of the same frame calls [A.update] all the same. *)
Lemma quit_then_update :
  ~ quit_skips_update Scenario.two_states Scenario.clicking.
Proof.
  intros H.
  apply (H Scenario.A_quit 0
           (_State.Obj (_State.set_quit true (_State.__init__ Scenario.idle 0 tt))
                       (Scenario.Screen (Some "B")))
           (Ok tt) Scenario.A_quit_updated);
    try (vm_compute; reflexivity).
  vm_compute. left.
Qed.

Lemma quit_updates_once_then_stops_witness :
  Control.done (Control.control Scenario.two_states) = false
  /\ Control.event_loop (Control.arrive Scenario.clicking Scenario.two_states)
     = (Ok tt, Scenario.A_quit)
  /\ Control.update Scenario.A_quit = (Ok tt, Scenario.A_quit_updated)
  /\ since (Control.calls Scenario.A_quit) Scenario.A_quit_updated = [CallUpdate 0]
  /\ exists w3,
       Control.main [Scenario.clicking; Scenario.clicking] Scenario.two_states = (Ok true, w3)
       /\ Control.done (Control.control w3) = true
       /\ Control.calls w3 = Control.calls Scenario.A_quit_updated.
Proof.
  split; [reflexivity|]. split; [vm_compute; reflexivity|].
  split; [vm_compute; reflexivity|].
  apply (quit_updates_once_then_stops Scenario.two_states Scenario.clicking
           [Scenario.clicking] Scenario.A_quit Scenario.A_quit_updated 0
           (_State.Obj (_State.set_quit true (_State.__init__ Scenario.idle 0 tt))
                       (Scenario.Screen (Some "B"))));
    vm_compute; reflexivity.
Defined.

(** In the scenario it is [A.get_event] that set [quit], the event loop
    left the controller's [done] alone, and the whole run made two calls. *)
Example quit_scenario_trace :
  Control.done (Control.control Scenario.A_quit) = false
  /\ (_State.quit ∘ _State.self) <$> Control.objs Scenario.A_quit !! 0 = Some true
  /\ Control.calls (Control.main [Scenario.clicking; Scenario.clicking] Scenario.two_states).2
     = [CallGetEvent 0 (mkEvent MOUSEBUTTONDOWN 1); CallUpdate 0].
Proof. vm_compute. auto. Qed.

(** The failed transition is not without effect: the controller's
    [state_name] already is the missing name, and [cleanup] has run on
    the outgoing state. *)
Example flip_state_unregistered_mutates :
  let w' := (Control.flip_state (Scenario.A_done (Some "MENU"))).2 in
  Control.state_name (Control.control (Scenario.A_done (Some "MENU"))) = Some "A"
  /\ Control.state_name (Control.control w') = Some "MENU"
  /\ (_State.done ∘ _State.self) <$> Control.objs (Scenario.A_done (Some "MENU")) !! 0 = Some true
  /\ (_State.done ∘ _State.self) <$> Control.objs w' !! 0 = Some false.
Proof. vm_compute. auto. Qed.

Lemma flip_state_unregistered_raises_witness :
  Control.State (Control.control (Scenario.A_done (Some "MENU"))) = Some 0
  /\ Control.objs (Scenario.A_done (Some "MENU")) !! 0 = Some (Scenario.A_obj (Some "MENU"))
  /\ Control.state_dict (Control.control (Scenario.A_done (Some "MENU"))) !! Some "MENU" = None
  /\ exists w',
       Control.flip_state (Scenario.A_done (Some "MENU")) = (Raise (KeyError (Some "MENU")), w')
       /\ Control.State (Control.control w') = Some 0
       /\ (forall r', r' ≠ 0 ->
             Control.objs w' !! r' = Control.objs (Scenario.A_done (Some "MENU")) !! r')
       /\ since (Control.calls (Scenario.A_done (Some "MENU"))) w' = [CallCleanup 0 0]
       /\ Control.dicts w' = Control.dicts (Scenario.A_done (Some "MENU")).
Proof.
  split; [reflexivity|]. split; [vm_compute; reflexivity|].
  split; [vm_compute; reflexivity|].
  apply (flip_state_unregistered_raises (Scenario.A_done (Some "MENU")) 0
           (Scenario.A_obj (Some "MENU")));
    vm_compute; reflexivity.
Defined.

Lemma cleanup_then_startup_same_persist_witness :
  Control.State (Control.control (Scenario.A_done (Some "B"))) = Some 0
  /\ Control.objs (Scenario.A_done (Some "B")) !! 0 = Some (Scenario.A_obj (Some "B"))
  /\ Control.state_dict (Control.control (Scenario.A_done (Some "B"))) !! Some "B" = Some 1
  /\ is_Some (Control.objs (Scenario.A_done (Some "B")) !! 1)
  /\ exists w' o',
       Control.flip_state (Scenario.A_done (Some "B")) = (Ok tt, w')
       /\ since (Control.calls (Scenario.A_done (Some "B"))) w'
          = [CallCleanup 0 0; CallStartup 1 0]
       /\ Control.State (Control.control w') = Some 1
       /\ Control.objs w' !! 1 = Some o'
       /\ _State.persist (_State.self o') = 0
       /\ Control.dicts w' = Control.dicts (Scenario.A_done (Some "B")).
Proof.
  split; [reflexivity|]. split; [vm_compute; reflexivity|].
  split; [vm_compute; reflexivity|].
  split; [vm_compute; eauto|].
  apply (cleanup_then_startup_same_persist (Scenario.A_done (Some "B")) 0
           (Scenario.A_obj (Some "B")) 1);
    vm_compute; eauto.
Defined.

Lemma flip_state_sets_previous_witness :
  Control.flip_state (Scenario.A_done (Some "B")) = (Ok tt, Scenario.in_B)
  /\ exists r' o',
       Control.State (Control.control Scenario.in_B) = Some r'
       /\ Control.objs Scenario.in_B !! r' = Some o'
       /\ _State.previous (_State.self o') = Some "A".
Proof.
  split; [vm_compute; reflexivity|].
  apply (flip_state_sets_previous (Scenario.A_done (Some "B")) Scenario.in_B).
  vm_compute; reflexivity.
Defined.

Lemma reentered_state_not_done_witness :
  Control.State (Control.control (Scenario.A_done (Some "B"))) = Some 0
  /\ Control.flip_state (Scenario.A_done (Some "B")) = (Ok tt, Scenario.in_B)
  /\ Control.State (Control.control Scenario.in_B) ≠ Some 0
  /\ elsewhere 0 Scenario.B_steps Scenario.in_B = Some Scenario.B_done
  /\ Control.flip_state Scenario.B_done = (Ok tt, Scenario.back_in_A)
  /\ Control.State (Control.control Scenario.back_in_A) = Some 0
  /\ exists o, Control.objs Scenario.back_in_A !! 0 = Some o
       /\ _State.done (_State.self o) = false.
Proof.
  split; [reflexivity|]. split; [vm_compute; reflexivity|].
  split; [vm_compute; discriminate|].
  split; [vm_compute; reflexivity|].
  split; [vm_compute; reflexivity|].
  split; [vm_compute; reflexivity|].
  apply (reentered_state_not_done (Scenario.A_done (Some "B")) 0 Scenario.in_B
           Scenario.B_steps Scenario.B_done Scenario.back_in_A);
    try (vm_compute; reflexivity).
  vm_compute; discriminate.
Defined.

Lemma one_update_per_frame_witness :
  Control.update (Scenario.A_done (Some "B")) = (Ok tt, Scenario.A_updated)
  /\ exists r0 r,
       Control.State (Control.control (Scenario.A_done (Some "B"))) = Some r0
       /\ Control.State (Control.control Scenario.A_updated) = Some r
       /\ ((r = r0 /\ since (Control.calls (Scenario.A_done (Some "B"))) Scenario.A_updated
                      = [CallUpdate r])
           \/ exists p, since (Control.calls (Scenario.A_done (Some "B"))) Scenario.A_updated
                          = [CallCleanup r0 p; CallStartup r p; CallUpdate r]).
Proof.
  split; [vm_compute; reflexivity|].
  apply (one_update_per_frame (Scenario.A_done (Some "B")) Scenario.A_updated).
  vm_compute; reflexivity.
Defined.

(** In the scenario the transition is the one from [A] to [B], and the
    one [update] of the frame goes to [B]. *)
Example update_goes_to_B :
  since (Control.calls (Scenario.A_done (Some "B"))) Scenario.A_updated
  = [CallCleanup 0 0; CallStartup 1 0; CallUpdate 1].
Proof. vm_compute. reflexivity. Qed.

Lemma inherited_get_event_raises_witness :
  Control.event_queue Scenario.bare_key_down = [mkEvent KEYDOWN 32]
  /\ Control.State (Control.control Scenario.bare_key_down) = Some 0
  /\ Control.objs Scenario.bare_key_down !! 0
     = Some (_State.Obj (_State.__init__ Scenario.idle 0 tt) Scenario.Bare)
  /\ exists w',
       Control.event_loop Scenario.bare_key_down
       = (Raise (TypeError "get_event" ["keys"; "mouse"]), w')
       /\ Control.calls w' = Control.calls Scenario.bare_key_down
       /\ Control.objs w' = Control.objs Scenario.bare_key_down.
Proof.
  split; [reflexivity|]. split; [reflexivity|]. split; [vm_compute; reflexivity|].
  apply (inherited_get_event_raises Scenario.bare_key_down 0
           (_State.Obj (_State.__init__ Scenario.idle 0 tt) Scenario.Bare)
           (mkEvent KEYDOWN 32) []);
    vm_compute; reflexivity.
Defined.

(** A screen that overrides [get_event] takes the same event. *)
Example overridden_get_event_returns :
  (Control.event_loop
     (Control.set_event_queue [mkEvent KEYDOWN 32] Scenario.two_states)).1 = Ok tt.
Proof. vm_compute. reflexivity. Qed.

(** A click on the first sun, whose mask is empty there: it is removed,
    the loop is left before the second sun is drawn, and no sun has aged. *)
Example click_removes_first_sun :
  let r := Story.sun_updates (fun _ => "sun") Scenario.sun_rect Scenario.sun_mask
             Scenario.Sun_update (Scenario.click_at (3, 4)%Z) (Scenario.two_suns, []) in
  r.1 = Ok tt
  /\ Story.suns (_State.extra r.2.1) = [1]
  /\ r.2.2 = []
  /\ Scenario.sun_age <$> Story.sun_objs (_State.extra r.2.1) !! 1 = Some 0.
Proof. vm_compute. auto. Qed.

(** No click: both suns are drawn, and none has aged. *)
Example no_click_draws_suns :
  let r := Story.sun_updates (fun _ => "sun") Scenario.sun_rect Scenario.sun_mask
             Scenario.Sun_update Scenario.idle (Scenario.two_suns, []) in
  r.1 = Ok tt
  /\ Story.suns (_State.extra r.2.1) = [0; 1]
  /\ r.2.2 = [Blit "sun" (mkRect 0 0 10 10); Blit "sun" (mkRect 20 0 10 10)]
  /\ Scenario.sun_age <$> Story.sun_objs (_State.extra r.2.1) !! 0 = Some 0.
Proof. vm_compute. auto. Qed.

Lemma load_all_gfx_keys_and_conversion_witness :
  listdir Scenario.picture_files "gfx" = Some ["foo.png"; "bar.png"]
  /\ (forall pic, pic ∈ ["foo.png"; "bar.png"] -> accepted [".png"] pic = true ->
        is_Some (image_load Scenario.picture_files (path_join "gfx" pic)))
  /\ exists g,
       load_all_gfx Scenario.picture_files "gfx" gfx_colorkey [".png"] = Ok g
       /\ dom g = list_to_set ((fun pic => (splitext pic).1)
                     <$> filter (fun pic => accepted [".png"] pic = true) ["foo.png"; "bar.png"])
       /\ forall k v, g !! k = Some v ->
            exists pic img,
              pic ∈ ["foo.png"; "bar.png"] /\ accepted [".png"] pic = true
              /\ (splitext pic).1 = k
              /\ image_load Scenario.picture_files (path_join "gfx" pic) = Some img
              /\ v = if truthy (get_alpha img) then convert_alpha img
                     else set_colorkey gfx_colorkey (convert img).
Proof.
  assert (forall pic, pic ∈ ["foo.png"; "bar.png"] -> accepted [".png"] pic = true ->
            is_Some (image_load Scenario.picture_files (path_join "gfx" pic))) as Hload.
  { intros pic Hpic _.
    apply list_elem_of_In in Hpic. simpl in Hpic.
    destruct Hpic as [<-|[<-|[]]]; vm_compute; eauto. }
  split; [reflexivity|]. split; [exact Hload|].
  apply (load_all_gfx_keys_and_conversion Scenario.picture_files "gfx" gfx_colorkey
           [".png"] ["foo.png"; "bar.png"]); [reflexivity|exact Hload].
Defined.

(** The scenario of the two pictures: exactly the keys [foo] and [bar],
    [foo] opaque with the colorkey and [bar] with its alpha kept. *)
Example load_all_gfx_foo_bar :
  load_all_gfx Scenario.picture_files "gfx" gfx_colorkey [".png"]
  = Ok (<["foo" := mkGraphic (mkImage "gfx/foo.png" None) Opaque (Some (255, 0, 255)%Z)]>
          (<["bar" := mkGraphic (mkImage "gfx/bar.png" (Some 255%Z)) PerPixelAlpha None]> ∅)).
Proof. vm_compute. reflexivity. Qed.

(** Two files with one base name share one key; the later one stays. *)
Example load_all_gfx_same_name :
  (for_pic (mkFiles (fun _ => None) (fun p => Some (mkImage p None)) (fun _ => None))
           "gfx" gfx_colorkey gfx_accept ["foo.png"; "foo.JPG"; "notes.txt"] ∅).2
  = <["foo" := mkGraphic (mkImage "gfx/foo.JPG" None) Opaque (Some (255, 0, 255)%Z)]> ∅.
Proof. vm_compute. reflexivity. Qed.

(** * Further properties *)

Lemma bind_Ok_inv {S A B} (c : Eff S A) (k : A -> Eff S B) s b s' :
  (c ≫= k) s = (Ok b, s') ->
  exists a s1, c s = (Ok a, s1) /\ k a s1 = (Ok b, s').
Proof.
  unfold mbind, Eff_bind. destruct (c s) as [[a|e] s1]; [eauto|done].
Qed.



Lemma bind_gets {S A B} (f : S -> A) (k : A -> Eff S B) s :
  (gets f ≫= k) s = k (f s) s.
Proof. reflexivity. Qed.

Lemma bind_cases {S A B} (c : Eff S A) (k : A -> Eff S B) s res s' :
  (c ≫= k) s = (res, s') ->
  (exists a s1, c s = (Ok a, s1) /\ k a s1 = (res, s'))
  \/ (exists e, c s = (Raise e, s') /\ res = Raise e).
Proof.
  unfold mbind, Eff_bind. destruct (c s) as [[a|e] s1]; [eauto|].
  intros [= <- <-]. eauto.
Qed.

Section Keeping_lemmas.
Context {X : Type}.
Implicit Types (w : Control.World X) (o : _State.obj X).

Lemma steady_refl w : steady w w.
Proof. by repeat split. Qed.

Lemma steady_trans w1 w2 w3 : steady w1 w2 -> steady w2 w3 -> steady w1 w3.
Proof.
  intros (A1 & A2 & A3 & A4 & A5 & A6) (B1 & B2 & B3 & B4 & B5 & B6).
  repeat split; try congruence. auto.
Qed.

Lemma listening_refl w : listening w w.
Proof. split; [apply steady_refl|done]. Qed.

Lemma listening_trans w1 w2 w3 : listening w1 w2 -> listening w2 w3 -> listening w1 w3.
Proof.
  intros (A0 & A1 & A2 & A3) (B0 & B1 & B2 & B3).
  split; [by eapply steady_trans|]. split; [congruence|]. split; [congruence|].
  intros H. rewrite B3, A3; [done..|]. destruct A0 as (-> & _). done.
Qed.

Lemma Through_ret R {A} (v : A) :
  (forall w, R w w) -> Through (X:=X) R (mret v).
Proof. intros HR w res w' [= <- <-]. apply HR. Qed.

Lemma Through_raise R {A} e :
  (forall w, R w w) -> Through (X:=X) R (raise e : Eff _ A).
Proof. intros HR w res w' [= <- <-]. apply HR. Qed.

Lemma Through_gets R {A} (f : Control.World X -> A) :
  (forall w, R w w) -> Through R (gets f).
Proof. intros HR w res w' [= <- <-]. apply HR. Qed.

Lemma Through_modify R (f : Control.World X -> Control.World X) :
  (forall w, R w (f w)) -> Through R (modify f).
Proof. intros HR w res w' [= <- <-]. apply HR. Qed.

Lemma Through_bind R {A B} (c : Eff (Control.World X) A) (k : A -> Eff (Control.World X) B) :
  (forall w1 w2 w3, R w1 w2 -> R w2 w3 -> R w1 w3) ->
  Through R c -> (forall v, Through R (k v)) -> Through R (c ≫= k).
Proof.
  intros Ht Hc Hk w res w'. unfold mbind, Eff_bind.
  destruct (c w) as [[v|e] w1] eqn:E; intros H.
  - eapply Ht; [eapply Hc, E|eapply Hk, H].
  - injection H as <- <-. eapply Hc, E.
Qed.

(** A method body run on an instance leaves the controller alone. *)
Lemma on_self_steady {A} r (body : Eff (_State.attrs X) A) :
  Through (fun w w' => Control.control w' = Control.control w
                       /\ Control.device w' = Control.device w
                       /\ Control.presented w' = Control.presented w
                       /\ Control.calls w' = Control.calls w
                       /\ Control.screen w' = Control.screen w
                       /\ Control.event_queue w' = Control.event_queue w)
          (Control.on_self r body).
Proof.
  intros w res w'. unfold Control.on_self, Control.load. eff.
  destruct (Control.objs w !! r) as [o|]; simpl.
  - destruct (body (_State.self o)) as [res1 a1]. intros [= <- <-]. done.
  - intros [= <- <-]. done.
Qed.

Lemma call_get_event_listening event :
  Through (X:=X) listening (Control.call_get_event event).
Proof.
  intros w res w'.
  unfold Control.call_get_event, Control.the_State, Control.load,
    Control.on_self, Control.load, Control.missing_arguments, Control.log.
  eff. intros H.
  destruct (Control.State (Control.control w)) as [r|] eqn:HS; simpl in H;
    [|injection H as <- <-; apply listening_refl].
  destruct (Control.objs w !! r) as [o|] eqn:Ho; simpl in H;
    [|injection H as <- <-; apply listening_refl].
  destruct (_State.def_get_event (_State.cls o)) as [body|]; simpl in H;
    [|injection H as <- <-; apply listening_refl].
  rewrite Ho in H. simpl in H.
  destruct (body (Control.device w) event (_State.self o)) as [res1 a1].
  injection H as <- <-. by repeat split.
Qed.

(** The branch of [event_loop] on the type of the event, as it stands in
    the loop. *)
Lemma event_branch_listening (event : Event) w res w' :
  match ev_type event with
  | QUIT => Control.assign (Control.set_done true)
  | KEYDOWN | KEYUP =>
      Control.assign (Control.set_keys (key_get_pressed (Control.device w)));;
      Control.toggle_show_fps
  | MOUSEBUTTONDOWN | MOUSEBUTTONUP =>
      Control.assign (Control.set_mouse (mouse_get_pressed (Control.device w)))
  | USEREVENT _ => mret tt
  end w = (res, w') ->
  listening w w' /\ Control.calls w' = Control.calls w
  /\ Control.objs w' = Control.objs w
  /\ (ev_type event = QUIT -> Control.done (Control.control w') = true)
  /\ Control.event_queue w' = Control.event_queue w
  /\ res = Ok tt.
Proof.
  unfold Control.toggle_show_fps, Control.set_caption, Control.assign. eff.
  destruct (ev_type event); simpl; try (intros [= <- <-]; by repeat split);
    destruct (key_get_pressed (Control.device w) K_F5) eqn:F5; simpl;
    destruct (Control.show_fps (Control.control w)) eqn:Sh; simpl;
    intros [= <- <-]; repeat split; simpl; try done; congruence.
Qed.

Lemma for_event_listening events :
  Through (X:=X) listening (Control.for_event events).
Proof.
  induction events as [|event rest IH]; simpl;
    [apply Through_ret, listening_refl|].
  intros w res w' H. rewrite bind_gets in H.
  apply bind_cases in H as [(? & w1 & E & H)|(e & E & ->)].
  - apply event_branch_listening in E as [E _].
    eapply listening_trans; [exact E|]. revert H.
    apply Through_bind;
      [apply listening_trans|apply call_get_event_listening|intros _; exact IH].
  - by apply event_branch_listening in E as [E _].
Qed.

Lemma event_loop_listening : Through (X:=X) listening Control.event_loop.
Proof.
  intros w res w' H. unfold Control.event_loop in H.
  rewrite bind_gets in H.
  apply bind_cases in H as [(? & w1 & E & H)|(e & E & ->)]; [|done].
  injection E as <- <-.
  apply for_event_listening in H. destruct H as ((? & ? & ? & ? & ? & ?) & ? & ? & ?).
  by repeat split.
Qed.
End Keeping_lemmas.

Section Dispatch.
Context {X : Type}.
Implicit Types (w : Control.World X) (o : _State.obj X).

(** One call of [get_event] is recorded when, and only when, the method
    is entered; it cannot return without having been entered. *)
Lemma call_get_event_calls event w res w' r :
  Control.State (Control.control w) = Some r ->
  Control.call_get_event event w = (res, w') ->
  Control.event_queue w' = Control.event_queue w
  /\ (Control.calls w' = Control.calls w ++ [CallGetEvent r event]
      \/ (Control.calls w' = Control.calls w /\ res ≠ Ok tt)).
Proof.
  intros HS.
  unfold Control.call_get_event, Control.the_State, Control.load,
    Control.on_self, Control.load, Control.missing_arguments, Control.log.
  eff. rewrite HS. simpl.
  destruct (Control.objs w !! r) as [o|] eqn:Ho; simpl;
    [|intros [= <- <-]; split; [done|by right]].
  destruct (_State.def_get_event (_State.cls o)) as [body|]; simpl;
    [|intros [= <- <-]; split; [done|by right]].
  rewrite Ho. simpl.
  destruct (body (Control.device w) event (_State.self o)) as [res1 a1].
  intros [= <- <-]. split; [done|by left].
Qed.

Lemma for_event_calls events w res w' r :
  Control.State (Control.control w) = Some r ->
  Control.for_event events w = (res, w') ->
  Control.event_queue w' = Control.event_queue w
  /\ exists n, n ≤ length events
       /\ Control.calls w' = Control.calls w ++ (CallGetEvent r <$> take n events)
       /\ (res = Ok tt -> n = length events).
Proof.
  revert w. induction events as [|event rest IH]; simpl; intros w HS H.
  { injection H as <- <-. split; [done|]. exists 0. by rewrite app_nil_r. }
  rewrite bind_gets in H.
  apply bind_cases in H as [(? & w1 & E & H)|(e & E & ->)];
    apply event_branch_listening in E as ((_ & HS1 & _) & Ec & _ & _ & Eq & Hres);
    [|discriminate Hres].
  rewrite <- HS1 in HS.
  apply bind_cases in H as [([] & w2 & G & H)|(e & G & ->)].
  - assert (Control.State (Control.control w2) = Some r) as HS2.
    { apply call_get_event_listening in G as (_ & -> & _). done. }
    apply (call_get_event_calls _ _ _ _ r HS) in G as (Gq & [Gc|[_ Gc]]); [|done].
    destruct (IH w2 HS2 H) as (Hq & n & Hn & Hc & Hok).
    split; [congruence|]. exists (S n). split; [lia|]. split.
    + rewrite Hc, Gc, Ec, <- app_assoc. done.
    + intros Hr. by rewrite Hok.
  - apply (call_get_event_calls _ _ _ _ r HS) in G as (Gq & [Gc|[Gc _]]).
    + split; [congruence|]. exists 1. split; [lia|]. split; [|done].
      rewrite Gc, Ec. simpl. by destruct rest.
    + split; [congruence|]. exists 0. split; [lia|]. split; [|done].
      rewrite Gc, Ec. simpl. by rewrite app_nil_r.
Qed.

(** X3: [event_loop] empties the queue and hands the queued events, in
    their order, to [get_event] of the state that is current when it
    starts, each at most once and none after the first call that raises;
    when it returns, every queued event has been handed over exactly
    once. *)
Theorem event_loop_dispatches_in_order w res w' r :
  Control.State (Control.control w) = Some r ->
  Control.event_loop w = (res, w') ->
  Control.event_queue w' = []
  /\ exists n, n ≤ length (Control.event_queue w)
       /\ since (Control.calls w) w' = CallGetEvent r <$> take n (Control.event_queue w)
       /\ (res = Ok tt -> n = length (Control.event_queue w)).
Proof.
  intros HS H. unfold Control.event_loop in H. rewrite bind_gets in H.
  apply bind_cases in H as [(? & w1 & E & H)|(e & E & ->)]; [|done].
  injection E as <- <-.
  apply (for_event_calls _ (Control.set_event_queue [] w) _ _ r HS) in H
    as (Hq & n & Hn & Hc & Hok).
  split; [done|]. exists n. split; [done|]. split; [|done].
  unfold since. simpl in Hc. rewrite Hc. by rewrite drop_app_length.
Qed.

(** X4: whatever is in the queue and however the dispatch ends,
    [event_loop] makes no transition: [State], [state_name] and
    [state_dict] are as before, and no instance other than the current
    state is written. *)
Theorem event_loop_makes_no_transition w res w' :
  Control.event_loop w = (res, w') ->
  Control.State (Control.control w') = Control.State (Control.control w)
  /\ Control.state_name (Control.control w') = Control.state_name (Control.control w)
  /\ Control.state_dict (Control.control w') = Control.state_dict (Control.control w)
  /\ forall x, Control.State (Control.control w) ≠ Some x ->
       Control.objs w' !! x = Control.objs w !! x.
Proof.
  intros H. pose proof (Quiet_event_loop w res w' H) as [_ F].
  apply event_loop_listening in H as ((_ & _ & Hd & _) & HS & Hn & _).
  done.
Qed.

(** X5: [event_loop] changes [show_fps] only while F5 is held. *)
Theorem show_fps_needs_F5 w res w' :
  key_get_pressed (Control.device w) K_F5 = false ->
  Control.event_loop w = (res, w') ->
  Control.show_fps (Control.control w') = Control.show_fps (Control.control w).
Proof.
  intros HF H. apply event_loop_listening in H as (_ & _ & _ & Hs). auto.
Qed.
End Dispatch.

Section Frames.
Context {X : Type}.
Implicit Types (w : Control.World X) (o : _State.obj X).

Lemma flip_state_steady : Through (X:=X) steady Control.flip_state.
Proof.
  intros w res w'.
  unfold Control.flip_state, Control.call_cleanup, Control.call_startup,
    Control.on_self, Control.the_State, Control.load, Control.assign, Control.log.
  eff.
  destruct (Control.State (Control.control w)) as [r|] eqn:HS; simpl;
    [|intros [= <- <-]; apply steady_refl].
  destruct (Control.objs w !! r) as [o|] eqn:Ho; simpl;
    [|intros [= <- <-]; apply steady_refl].
  rewrite HS. simpl. rewrite Ho. simpl.
  destruct (Control.state_dict (Control.control w) !! _State.next (_State.self o))
    as [r'|] eqn:Hd; simpl; [|intros [= <- <-]; by repeat split].
  destruct (<[r:=_State.set_self (_State.set_done false (_State.self o)) o]>
              (Control.objs w) !! r') as [o'|] eqn:Ho'; simpl;
    [|intros [= <- <-]; by repeat split].
  rewrite Ho'. simpl. rewrite lookup_insert_eq. simpl.
  intros [= <- <-]. by repeat split.
Qed.

Lemma call_update_steady : Through (X:=X) steady Control.call_update.
Proof.
  intros w res w'.
  unfold Control.call_update, Control.the_State, Control.load,
    Control.on_self_and_screen, Control.load, Control.log.
  eff.
  destruct (Control.State (Control.control w)) as [r|] eqn:HS; simpl;
    [|intros [= <- <-]; apply steady_refl].
  destruct (Control.objs w !! r) as [o|] eqn:Ho; simpl;
    [|intros [= <- <-]; apply steady_refl].
  destruct (_State.def_update (_State.cls o)) as [body|]; simpl; rewrite Ho; simpl.
  - destruct (body _ _ _ _) as [res1 t]. intros [= <- <-]. by repeat split.
  - intros [= <- <-]. by repeat split.
Qed.

Lemma update_steady : Through (X:=X) steady Control.update.
Proof.
  unfold Control.update.
  apply Through_bind; [apply steady_trans| |intros r].
  { intros w res w'. unfold Control.the_State. eff.
    destruct (Control.State _); intros [= <- <-]; apply steady_refl. }
  apply Through_bind; [apply steady_trans| |intros o].
  { intros w res w'. unfold Control.load. eff.
    destruct (_ !! _); intros [= <- <-]; apply steady_refl. }
  apply Through_bind; [apply steady_trans| |intros _; apply call_update_steady].
  destruct (_State.quit _).
  { apply Through_modify. intros w. by repeat split. }
  destruct (_State.done _); [apply flip_state_steady|].
  apply Through_ret, steady_refl.
Qed.

Lemma event_loop_steady : Through (X:=X) steady Control.event_loop.
Proof. intros w res w' H. by apply event_loop_listening in H as [? _]. Qed.

(** A [QUIT] among the dispatched events leaves [done] set. *)
Lemma for_event_quit events w w' :
  Control.for_event events w = (Ok tt, w') ->
  (exists event, event ∈ events /\ ev_type event = QUIT) ->
  Control.done (Control.control w') = true.
Proof.
  revert w. induction events as [|event rest IH]; simpl; intros w H (q & Hin & Hq).
  { by apply elem_of_nil in Hin. }
  rewrite bind_gets in H.
  apply bind_cases in H as [(? & w1 & E & H)|(e & E & [=])].
  apply event_branch_listening in E as (_ & _ & _ & Eq & _).
  apply bind_cases in H as [([] & w2 & G & H)|(e & G & [=])].
  apply call_get_event_listening in G as ((_ & _ & _ & _ & _ & Gd) & _).
  apply elem_of_cons in Hin as [->|Hin].
  - apply for_event_listening in H as ((_ & _ & _ & _ & _ & Hd) & _). auto.
  - eapply IH; eauto.
Qed.

(** X6: when a [QUIT] event is in the queue and the dispatch returns,
    the controller's [done] is set, whatever the states did with the
    events. *)
Theorem quit_event_sets_done w w' :
  (exists event, event ∈ Control.event_queue w /\ ev_type event = QUIT) ->
  Control.event_loop w = (Ok tt, w') ->
  Control.done (Control.control w') = true.
Proof.
  intros Hq H. unfold Control.event_loop in H. rewrite bind_gets in H.
  apply bind_cases in H as [(? & w1 & E & H)|(e & E & [=])].
  injection E as <- <-. by eapply for_event_quit.
Qed.

(** A pass of the [while] of [main] that returns is an [event_loop]
    and an [update] that returned, then a frame presented. *)
Lemma iteration_Ok_inv w w' :
  Control.iteration w = (Ok tt, w') ->
  exists w1 w2,
    Control.event_loop w = (Ok tt, w1)
    /\ Control.update w1 = (Ok tt, w2)
    /\ Control.control w' = Control.control w2
    /\ Control.objs w' = Control.objs w2
    /\ Control.calls w' = Control.calls w2
    /\ Control.event_queue w' = Control.event_queue w2
    /\ Control.presented w' = S (Control.presented w2).
Proof.
  unfold Control.iteration, Control.set_caption. intros H.
  apply bind_cases in H as [([] & w1 & E & H)|(e & E & [=])].
  apply bind_cases in H as [([] & w2 & U & H)|(e & U & [=])].
  exists w1, w2. split; [done|]. split; [done|].
  revert H. eff. destruct (Control.show_fps _); intros [= <-]; done.
Qed.

Lemma main_step f env w w1 :
  Control.done (Control.control w) = false ->
  Control.iteration (Control.arrive f w) = (Ok tt, w1) ->
  Control.main (f :: env) w = Control.main env w1.
Proof. intros Hd Hi. simpl. eff. rewrite Hd. simpl. by rewrite Hi. Qed.

Lemma main_Ok_inv f env w b w' :
  Control.done (Control.control w) = false ->
  Control.main (f :: env) w = (Ok b, w') ->
  exists w1, Control.iteration (Control.arrive f w) = (Ok tt, w1)
             /\ Control.main env w1 = (Ok b, w').
Proof.
  intros Hd H. simpl in H. rewrite bind_gets in H. rewrite Hd in H.
  apply bind_cases in H as [([] & w0 & E & H)|(e & E & [=])].
  injection E as <-.
  apply bind_cases in H as [([] & w1 & E & H)|(e & E & [=])].
  eauto.
Qed.

(** X7: a [QUIT] event ends the program at the end of its frame: if the
    frame's events hold a [QUIT] and the pass of the loop returns, [main]
    returns after exactly this one pass, with one more frame presented,
    and reads nothing of what the environment had next. *)
Theorem window_close_ends_main w f env w1 :
  Control.done (Control.control w) = false ->
  (exists event, event ∈ frame_events f /\ ev_type event = QUIT) ->
  Control.iteration (Control.arrive f w) = (Ok tt, w1) ->
  Control.main (f :: env) w = (Ok true, w1)
  /\ Control.presented w1 = S (Control.presented w).
Proof.
  intros Hd (q & Hin & Hq) Hi.
  rewrite (main_step f env w w1 Hd Hi).
  destruct (iteration_Ok_inv _ _ Hi) as (wa & wb & E & U & Hc & _ & _ & _ & Hp).
  assert (Control.done (Control.control wa) = true) as Hda.
  { eapply quit_event_sets_done; [|exact E].
    exists q. split; [|done]. simpl. apply elem_of_app. by right. }
  pose proof (update_steady _ _ _ U) as (_ & Up & _ & _ & _ & Ud).
  pose proof (event_loop_steady _ _ _ E) as (_ & Ep & _).
  split.
  - apply main_done. rewrite Hc. auto.
  - rewrite Hp, Up, Ep. done.
Qed.

(** X8: the Boolean [main] returns is the controller's [done]: it leaves
    its loop only with [done] set; and when the environment's prefix ran
    out first, [done] is still clear and every frame of the prefix was
    presented. *)
Theorem main_returns_done env w b w' :
  Control.main env w = (Ok b, w') ->
  Control.done (Control.control w') = b
  /\ (b = false -> Control.presented w' = Control.presented w + length env).
Proof.
  revert w. induction env as [|f env IH]; intros w H.
  - destruct (Control.done (Control.control w)) eqn:Hd.
    + rewrite main_done in H by done. by injection H as <- <-.
    + simpl in H. rewrite bind_gets, Hd in H. injection H as <- <-.
      split; [done|]. simpl. lia.
  - destruct (Control.done (Control.control w)) eqn:Hd.
    + rewrite main_done in H by done. by injection H as <- <-.
    + apply main_Ok_inv in H as (w1 & Hi & H); [|done].
      destruct (IH w1 H) as [Hb Hp]. split; [done|].
      intros ->. rewrite Hp by done.
      destruct (iteration_Ok_inv _ _ Hi) as (wa & wb & E & U & _ & _ & _ & _ & Hp1).
      pose proof (update_steady _ _ _ U) as (_ & Up & _).
      pose proof (event_loop_steady _ _ _ E) as (_ & Ep & _).
      rewrite Hp1, Up, Ep. simpl. lia.
Qed.

Lemma update_consistent w w' :
  Control.update w = (Ok tt, w') -> consistent w -> consistent w'.
Proof.
  intros H (r0 & HS0 & Hd0). unfold consistent.
  destruct (update_Ok_inv w w' H)
    as (r & o & HS & Ho & [(_ & U)|[(_ & _ & U)|(_ & _ & w1 & Fl & U)]]).
  - apply call_update_spec in U as (_ & -> & _). by exists r0.
  - apply call_update_spec in U as (_ & -> & _). by exists r0.
  - destruct (flip_state_Ok_inv w w1 Fl) as (r1 & o1 & r' & o' & HS1 & Ho1 & Hd & Ho').
    destruct (flip_state_ok w r1 o1 r' o' HS1 Ho1 Hd Ho') as (w2 & E & Hc & _).
    rewrite E in Fl. injection Fl as ->.
    apply call_update_spec in U as (_ & -> & _). rewrite Hc. by exists r'.
Qed.

Lemma iteration_consistent w w' :
  Control.iteration w = (Ok tt, w') -> consistent w ->
  consistent w'
  /\ Control.state_dict (Control.control w') = Control.state_dict (Control.control w).
Proof.
  intros Hi Hc.
  destruct (iteration_Ok_inv _ _ Hi) as (wa & wb & E & U & Hcw & _).
  pose proof (update_steady _ _ _ U) as (_ & _ & Ud & _).
  apply event_loop_listening in E as ((_ & _ & Ed & _) & ES & En & _).
  assert (consistent wa) as Ha.
  { destruct Hc as (r & HS & Hd). exists r. by rewrite ES, Ed, En. }
  apply (update_consistent _ _ U) in Ha as (r & HS & Hd).
  split; [exists r; by rewrite Hcw|]. rewrite Hcw. congruence.
Qed.

(** X9: [main] keeps the controller consistent: if [State] is the
    instance registered under [state_name] when the loop starts, it is so
    when the loop returns, and [state_dict] itself is the one the loop
    started with. *)
Theorem main_keeps_consistent env w b w' :
  consistent w ->
  Control.main env w = (Ok b, w') ->
  consistent w'
  /\ Control.state_dict (Control.control w') = Control.state_dict (Control.control w).
Proof.
  revert w. induction env as [|f env IH]; intros w Hc H.
  - destruct (Control.done (Control.control w)) eqn:Hd.
    + rewrite main_done in H by done. by injection H as <- <-.
    + simpl in H. rewrite bind_gets, Hd in H. by injection H as <- <-.
  - destruct (Control.done (Control.control w)) eqn:Hd.
    + rewrite main_done in H by done. by injection H as <- <-.
    + apply main_Ok_inv in H as (w1 & Hi & H); [|done].
      apply iteration_consistent in Hi as [Hc1 Hd1]; [|exact Hc].
      destruct (IH w1 Hc1 H) as [Hc' Hd']. split; [done|].
      rewrite Hd', Hd1. done.
Qed.
End Frames.

Section Setup.
Context {X : Type}.
Implicit Types (w : Control.World X) (o : _State.obj X).

(** X1: [setup_states] with a registered start state installs the
    mapping, the name and the instance, so that the controller is
    consistent, and does nothing else: no method of any state is called
    (in particular not [startup] of the first state) and no instance is
    written. *)
Theorem setup_states_registered states start r w :
  states !! start = Some r ->
  exists w',
    Control.setup_states states start w = (Ok tt, w')
    /\ Control.state_dict (Control.control w') = states
    /\ Control.state_name (Control.control w') = start
    /\ Control.State (Control.control w') = Some r
    /\ consistent w'
    /\ Control.calls w' = Control.calls w
    /\ Control.objs w' = Control.objs w.
Proof.
  intros Hr. unfold Control.setup_states, Control.assign. eff. rewrite Hr. simpl.
  eexists. split; [reflexivity|]. simpl. repeat split.
  exists r. simpl. done.
Qed.

(** X2: [setup_states] with a start state that is not a key of the
    mapping raises [KeyError] for it after [state_dict] and [state_name]
    were replaced; [State] is left as it was. *)
Theorem setup_states_unregistered states start w :
  states !! start = None ->
  exists w',
    Control.setup_states states start w = (Raise (KeyError start), w')
    /\ Control.state_dict (Control.control w') = states
    /\ Control.state_name (Control.control w') = start
    /\ Control.State (Control.control w') = Control.State (Control.control w)
    /\ Control.calls w' = Control.calls w
    /\ Control.objs w' = Control.objs w.
Proof.
  intros Hr. unfold Control.setup_states, Control.assign. eff. rewrite Hr. simpl.
  eexists. split; [reflexivity|]. done.
Qed.

(** X10: with F5 held in [self.keys], [toggle_show_fps] flips [show_fps],
    and a second call brings every attribute of the controller back; the
    window caption is reset to the plain caption by the call that turns
    the display off.  It never raises. *)
Theorem toggle_show_fps_twice w :
  Control.keys (Control.control w) K_F5 = true ->
  exists w1 w2,
    Control.toggle_show_fps w = (Ok tt, w1)
    /\ Control.show_fps (Control.control w1) = negb (Control.show_fps (Control.control w))
    /\ Control.toggle_show_fps w1 = (Ok tt, w2)
    /\ Control.control w2 = Control.control w
    /\ (Control.show_fps (Control.control w) = true ->
        Control.window_caption w1 = Plain (Control.caption (Control.control w)))
    /\ (Control.show_fps (Control.control w) = false ->
        Control.window_caption w1 = Control.window_caption w
        /\ Control.window_caption w2 = Plain (Control.caption (Control.control w))).
Proof.
  intros HF. unfold Control.toggle_show_fps, Control.set_caption, Control.assign. eff.
  destruct w as [[c d f s k m sd sn st] ob di de q sc wc p cl].
  simpl in *. rewrite ?HF.
  destruct s; simpl;
    (eexists _, _; split; [reflexivity|]; split; [reflexivity|];
     split; [simpl; rewrite HF; simpl; reflexivity|]; simpl; by repeat split).
Qed.

(** X11: a state may ask for a name under which its own instance is
    registered; [flip_state] then restarts it in place: it stays the
    current state with [done] cleared, [start_time] now, [previous] the
    name it was current under, and [persist], [next], [quit] and its own
    attributes as they were; no other instance is written. *)
Theorem flip_state_to_itself w r o :
  Control.State (Control.control w) = Some r ->
  Control.objs w !! r = Some o ->
  Control.state_dict (Control.control w) !! _State.next (_State.self o) = Some r ->
  exists w' o',
    Control.flip_state w = (Ok tt, w')
    /\ Control.State (Control.control w') = Some r
    /\ Control.objs w' !! r = Some o'
    /\ _State.done (_State.self o') = false
    /\ _State.start_time (_State.self o') = time_get_ticks (Control.device w)
    /\ _State.previous (_State.self o') = Control.state_name (Control.control w)
    /\ _State.persist (_State.self o') = _State.persist (_State.self o)
    /\ _State.next (_State.self o') = _State.next (_State.self o)
    /\ _State.quit (_State.self o') = _State.quit (_State.self o)
    /\ _State.extra (_State.self o') = _State.extra (_State.self o)
    /\ (forall x, x ≠ r -> Control.objs w' !! x = Control.objs w !! x).
Proof.
  intros HS Ho Hd.
  destruct (flip_state_ok w r o r (left o) HS Ho Hd) as (w' & E & Hc & Hobjs & _).
  { apply lookup_insert_eq. }
  exists w', (entered (Control.device w) (_State.persist (_State.self o))
                (Control.state_name (Control.control w)) (left o)).
  split; [done|]. split; [by rewrite Hc|].
  split; [rewrite Hobjs; apply lookup_insert_eq|].
  repeat split; try done.
  intros x Hx. rewrite Hobjs, !lookup_insert_ne by done. done.
Qed.

(** X12: after a transition between two different instances, the outgoing
    state still holds its [persist] dictionary and the incoming state
    holds the same one in place of its own: the two share it.  The
    outgoing state differs from before by [done] only; it keeps its
    [next]. *)
Theorem flip_state_shares_persist w r o r' o' :
  Control.State (Control.control w) = Some r ->
  Control.objs w !! r = Some o ->
  Control.state_dict (Control.control w) !! _State.next (_State.self o) = Some r' ->
  r' ≠ r ->
  Control.objs w !! r' = Some o' ->
  exists w' oa ob,
    Control.flip_state w = (Ok tt, w')
    /\ Control.objs w' !! r = Some oa
    /\ Control.objs w' !! r' = Some ob
    /\ oa = left o
    /\ _State.persist (_State.self oa) = _State.persist (_State.self o)
    /\ _State.persist (_State.self ob) = _State.persist (_State.self o)
    /\ _State.done (_State.self ob) = _State.done (_State.self o')
    /\ _State.extra (_State.self ob) = _State.extra (_State.self o').
Proof.
  intros HS Ho Hd Hne Ho'.
  destruct (flip_state_ok w r o r' o' HS Ho Hd) as (w' & E & Hc & Hobjs & _).
  { by rewrite lookup_insert_ne. }
  exists w', (left o),
    (entered (Control.device w) (_State.persist (_State.self o))
       (Control.state_name (Control.control w)) o').
  split; [done|].
  split; [rewrite Hobjs, lookup_insert_ne by done; apply lookup_insert_eq|].
  split; [rewrite Hobjs; apply lookup_insert_eq|]. done.
Qed.
End Setup.

Section KeyPress.
Context {X : Type}.
Implicit Types (w : Control.World X) (o : _State.obj X).


End KeyPress.



Lemma list_remove_elem x l : x ∈ l -> exists l', list_remove x l = Some l'.
Proof.
  induction l as [|y l IH]; intros Hin; [by apply elem_of_nil in Hin|].
  simpl. destruct (decide (y = x)) as [->|Hne]; [eauto|].
  apply elem_of_cons in Hin as [->|Hin]; [done|].
  destruct (IH Hin) as [l' ->]. simpl. eauto.
Qed.

Lemma list_remove_length x l l' : list_remove x l = Some l' -> length l = S (length l').
Proof.
  revert l'. induction l as [|y l IH]; simpl; intros l' H; [done|].
  destruct (decide (y = x)) as [->|Hne]; [by injection H as <-|].
  destruct (list_remove x l) as [l1|]; simpl in H; [|done].
  injection H as <-. simpl. by rewrite (IH l1).
Qed.

Section SunLoop.
Context {Sun : Type}.
Variable image : Sun -> string.
Variable image_rect : Sun -> Rect.
Variable mask : Sun -> Mask.
Variable update : Sun -> Sun.

Implicit Types (st : _State.attrs (Story.data Sun) * Surface).

Lemma for_obj_undisturbed dev copy st :
  (forall r, r ∈ copy ->
     exists obj, Story.sun_objs (_State.extra st.1) !! r = Some obj
                 /\ collidepoint (image_rect obj) (mouse_get_pos dev)
                    && (mouse_get_pressed dev).1.1 = false) ->
  Story.for_obj image image_rect mask update dev copy st
  = (Ok tt,
     (st.1, st.2 ++ omap (fun r => (fun obj => Blit (image obj) (image_rect obj))
                                     <$> Story.sun_objs (_State.extra st.1) !! r) copy)).
Proof.
  revert st. induction copy as [|r rest IH]; intros st H.
  { simpl. rewrite app_nil_r. by destruct st. }
  destruct (H r) as (obj & Hobj & Hc); [set_solver|].
  simpl. unfold Story.the_sun, Story.draw. eff. rewrite Hobj. simpl.
  rewrite Hc. simpl.
  rewrite (IH (st.1, st.2 ++ [Blit (image obj) (image_rect obj)])).
  - simpl. by rewrite <- app_assoc.
  - intros x Hx. apply H. set_solver.
Qed.

(** X18: when no sun is under a pressed left button, [sun_updates] returns,
    changes nothing of the screen's attributes and blits every sun of
    [self.suns], in the order of the list. *)
Theorem sun_updates_undisturbed dev st :
  (forall r, r ∈ Story.suns (_State.extra st.1) ->
     exists obj, Story.sun_objs (_State.extra st.1) !! r = Some obj
                 /\ collidepoint (image_rect obj) (mouse_get_pos dev)
                    && (mouse_get_pressed dev).1.1 = false) ->
  Story.sun_updates image image_rect mask update dev st
  = (Ok tt,
     (st.1, st.2 ++ omap (fun r => (fun obj => Blit (image obj) (image_rect obj))
                                     <$> Story.sun_objs (_State.extra st.1) !! r)
                         (Story.suns (_State.extra st.1)))).
Proof.
  intros H. unfold Story.sun_updates. rewrite bind_gets.
  by apply for_obj_undisturbed.
Qed.

(** The loop removes a sun only on a click inside its rect where its
    mask is clear, and then stops: the suns before it in the list have
    been blitted, the others have not. *)
Lemma for_obj_removal dev copy st :
  let r := Story.for_obj image image_rect mask update dev copy st in
  (Story.suns (_State.extra r.2.1) = Story.suns (_State.extra st.1))
  \/ exists pre x post obj,
       copy = pre ++ x :: post
       /\ Story.sun_objs (_State.extra st.1) !! x = Some obj
       /\ collidepoint (image_rect obj) (mouse_get_pos dev) = true
       /\ (mouse_get_pressed dev).1.1 = true
       /\ mask_bit (mask obj) ((mouse_get_pos dev).1 - rect_x (image_rect obj))
                              ((mouse_get_pos dev).2 - rect_y (image_rect obj)) = false
       /\ list_remove x (Story.suns (_State.extra st.1))
          = Some (Story.suns (_State.extra r.2.1))
       /\ r.1 = Ok tt
       /\ r.2.2 = st.2 ++ omap (fun r => (fun obj => Blit (image obj) (image_rect obj))
                                          <$> Story.sun_objs (_State.extra st.1) !! r) pre.
Proof.
  revert st. induction copy as [|r rest IH]; intros st; [by left|].
  assert (forall op,
    let r0 := Story.for_obj image image_rect mask update dev rest (st.1, st.2 ++ [op]) in
    forall obj0, Story.sun_objs (_State.extra st.1) !! r = Some obj0 ->
      op = Blit (image obj0) (image_rect obj0) ->
    (Story.suns (_State.extra r0.2.1) = Story.suns (_State.extra st.1))
    \/ exists pre x post obj,
         r :: rest = pre ++ x :: post
         /\ Story.sun_objs (_State.extra st.1) !! x = Some obj
         /\ collidepoint (image_rect obj) (mouse_get_pos dev) = true
         /\ (mouse_get_pressed dev).1.1 = true
         /\ mask_bit (mask obj) ((mouse_get_pos dev).1 - rect_x (image_rect obj))
                                ((mouse_get_pos dev).2 - rect_y (image_rect obj)) = false
         /\ list_remove x (Story.suns (_State.extra st.1))
            = Some (Story.suns (_State.extra r0.2.1))
         /\ r0.1 = Ok tt
         /\ r0.2.2 = st.2 ++ omap (fun r => (fun obj => Blit (image obj) (image_rect obj))
                                             <$> Story.sun_objs (_State.extra st.1) !! r) pre)
    as Hrest.
  { intros op r0 obj0 Hobj0 ->.
    destruct (IH (st.1, st.2 ++ [Blit (image obj0) (image_rect obj0)]))
      as [Hsame|(pre & x & post & obj & -> & Hx & Hc & Hp & Hm & Hrm & Hok & Hsurf)];
      [by left|].
    right. exists (r :: pre), x, post, obj. repeat split; try done.
    fold r0 in Hsurf. rewrite Hsurf. simpl. rewrite Hobj0. simpl.
    by rewrite <- app_assoc. }
  simpl. unfold Story.the_sun, Story.suns_remove, Story.on_data, Story.draw, get_at.
  eff.
  destruct (Story.sun_objs (_State.extra st.1) !! r) as [obj|] eqn:Hobj; simpl; [|by left].
  destruct (collidepoint _ _) eqn:Hc; simpl; [|by eapply Hrest].
  destruct ((mouse_get_pressed dev).1.1) eqn:Hp; simpl; [|by eapply Hrest].
  destruct (bool_decide _ && bool_decide _); simpl; [|by left].
  destruct (mask_bit _ _ _) eqn:Hm; simpl; [by eapply Hrest|].
  destruct (list_remove r _) as [l'|] eqn:E; simpl; [|by left].
  right. exists [], r, rest, obj. simpl. rewrite app_nil_r. done.
Qed.

(** X19: one call of [sun_updates] takes at most one sun out of
    [self.suns], and only a sun whose rect holds the pressed mouse at a
    point where its mask is clear.  The call then returns at once: the
    suns before the removed one have been blitted, the removed one and
    those after it have not. *)
Theorem sun_updates_removes_one dev st :
  let r := Story.sun_updates image image_rect mask update dev st in
  (Story.suns (_State.extra r.2.1) = Story.suns (_State.extra st.1))
  \/ exists pre x post obj,
       Story.suns (_State.extra st.1) = pre ++ x :: post
       /\ Story.sun_objs (_State.extra st.1) !! x = Some obj
       /\ collidepoint (image_rect obj) (mouse_get_pos dev) = true
       /\ (mouse_get_pressed dev).1.1 = true
       /\ mask_bit (mask obj) ((mouse_get_pos dev).1 - rect_x (image_rect obj))
                              ((mouse_get_pos dev).2 - rect_y (image_rect obj)) = false
       /\ list_remove x (Story.suns (_State.extra st.1))
          = Some (Story.suns (_State.extra r.2.1))
       /\ length (Story.suns (_State.extra st.1))
          = S (length (Story.suns (_State.extra r.2.1)))
       /\ r.1 = Ok tt
       /\ r.2.2 = st.2 ++ omap (fun r => (fun obj => Blit (image obj) (image_rect obj))
                                          <$> Story.sun_objs (_State.extra st.1) !! r) pre.
Proof.
  unfold Story.sun_updates. rewrite bind_gets.
  destruct (for_obj_removal dev (Story.suns (_State.extra st.1)) st)
    as [Hsame|(pre & x & post & obj & Hl & Hx & Hc & Hp & Hm & Hrm & Hok & Hsurf)];
    [by left|].
  right. exists pre, x, post, obj. repeat split; try done.
  by apply list_remove_length in Hrm.
Qed.

Lemma for_obj_returns dev copy st :
  copy ⊆ Story.suns (_State.extra st.1) ->
  (forall r, r ∈ copy ->
     exists obj, Story.sun_objs (_State.extra st.1) !! r = Some obj
                 /\ (rect_w (image_rect obj) ≤ mask_w (mask obj))%Z
                 /\ (rect_h (image_rect obj) ≤ mask_h (mask obj))%Z) ->
  (Story.for_obj image image_rect mask update dev copy st).1 = Ok tt.
Proof.
  revert st. induction copy as [|r rest IH]; intros st Hsub H; [done|].
  destruct (H r) as (obj & Hobj & Hw & Hh); [set_solver|].
  assert (forall op, (Story.for_obj image image_rect mask update dev rest
                        (st.1, st.2 ++ [op])).1 = Ok tt) as Hrest.
  { intros op. apply IH; simpl; [set_solver|]. intros x Hx. apply H. set_solver. }
  simpl. unfold Story.the_sun, Story.suns_remove, Story.on_data, Story.draw, get_at.
  eff. rewrite Hobj. simpl.
  destruct (collidepoint _ _) eqn:Hc; simpl; [|apply Hrest].
  destruct ((mouse_get_pressed dev).1.1) eqn:Hp; simpl; [|apply Hrest].
  unfold collidepoint in Hc. apply andb_true_iff in Hc as [Hx Hy].
  apply bool_decide_eq_true in Hx, Hy.
  rewrite !bool_decide_eq_true_2 by lia. simpl.
  destruct (mask_bit _ _ _); simpl; [apply Hrest|].
  destruct (list_remove_elem r (Story.suns (_State.extra st.1))) as [l' ->];
    [set_solver|]. done.
Qed.

(** X20: when the mask of every sun is at least as wide and as high as its
    rect, [sun_updates] returns: a click inside a rect is inside the
    mask, and the sun to remove is in the list. *)
Theorem sun_updates_returns dev st :
  (forall r, r ∈ Story.suns (_State.extra st.1) ->
     exists obj, Story.sun_objs (_State.extra st.1) !! r = Some obj
                 /\ (rect_w (image_rect obj) ≤ mask_w (mask obj))%Z
                 /\ (rect_h (image_rect obj) ≤ mask_h (mask obj))%Z) ->
  (Story.sun_updates image image_rect mask update dev st).1 = Ok tt.
Proof.
  intros H. unfold Story.sun_updates. rewrite bind_gets.
  by apply for_obj_returns.
Qed.

(** X21: a click inside the rect of the first sun at a point outside its
    mask makes [sun_updates] raise [IndexError] before anything is drawn
    or removed. *)
Theorem sun_updates_outside_mask dev st r rest obj :
  Story.suns (_State.extra st.1) = r :: rest ->
  Story.sun_objs (_State.extra st.1) !! r = Some obj ->
  collidepoint (image_rect obj) (mouse_get_pos dev) = true ->
  (mouse_get_pressed dev).1.1 = true ->
  (mask_w (mask obj) ≤ (mouse_get_pos dev).1 - rect_x (image_rect obj)
   \/ mask_h (mask obj) ≤ (mouse_get_pos dev).2 - rect_y (image_rect obj))%Z ->
  Story.sun_updates image image_rect mask update dev st = (Raise IndexError, st).
Proof.
  intros Hl Hobj Hc Hp Hout. unfold Story.sun_updates. rewrite bind_gets, Hl.
  simpl. unfold Story.the_sun, get_at. eff. rewrite Hobj. simpl. rewrite Hc, Hp. simpl.
  destruct (bool_decide _ && bool_decide _) eqn:Hin; [|done].
  apply andb_true_iff in Hin as [Hx Hy]. apply bool_decide_eq_true in Hx, Hy. lia.
Qed.
End SunLoop.

(** What one [update] of the [Survive] screen does. *)
Lemma Survive_update_run dev keys mouse (st : _State.attrs Survive.data * Surface) :
  let d := _State.extra st.1 in
  let toggles := bool_decide (time_get_ticks dev - Survive.timer d > 200)%Z in
  let d' := if toggles
            then Survive.set_timer (time_get_ticks dev)
                   (Survive.set_blink (negb (Survive.blink d)) d)
            else d in
  Survive.update dev keys mouse st
  = (Ok tt,
     (_State.set_extra d' st.1,
      st.2 ++ [Fill (0, 0, 0)%Z; Blit (Survive.title d) (Survive.title_rect d)]
           ++ (if Survive.blink d' then [Blit (Survive.ne_key d) (Survive.ne_key_rect d)]
               else []))).
Proof.
  destruct st as [[t dn q n p pe [ti tr nk nr b tm]] surf].
  unfold Survive.update, Survive.on_data, Survive.draw. eff.
  destruct (bool_decide _); simpl; destruct b; simpl;
    rewrite <- ?app_assoc; simpl; try reflexivity.
  all: by rewrite ?app_nil_r.
Qed.

(** X16: [Survive.update] never raises, and the text [[Press Any Key]]
    changes between shown and hidden at most once in 200 ticks: if one
    update changes [blink] and the next update changes it again, more than
    200 ticks lie between the two.  Every update starts by filling the
    surface and blits the title. *)
Theorem Survive_blink_period dev1 dev2 keys mouse (st : _State.attrs Survive.data * Surface) :
  let r1 := Survive.update dev1 keys mouse st in
  let r2 := Survive.update dev2 keys mouse r1.2 in
  r1.1 = Ok tt /\ r2.1 = Ok tt
  /\ (exists rest, r1.2.2 = st.2 ++ Fill (0, 0, 0)%Z
                      :: Blit (Survive.title (_State.extra st.1))
                              (Survive.title_rect (_State.extra st.1)) :: rest)
  /\ (Survive.blink (_State.extra r1.2.1) ≠ Survive.blink (_State.extra st.1) ->
      Survive.blink (_State.extra r2.2.1) ≠ Survive.blink (_State.extra r1.2.1) ->
      (time_get_ticks dev2 - time_get_ticks dev1 > 200)%Z).
Proof.
  intros r1 r2. subst r2 r1.
  rewrite (Survive_update_run dev1 keys mouse st). simpl.
  rewrite (Survive_update_run dev2 keys mouse _). simpl.
  split; [done|]. split; [done|]. split; [eauto|].
  destruct st as [[t dn q n p pe [ti tr nk nr b tm]] surf]. simpl.
  destruct (bool_decide (time_get_ticks dev1 - tm > 200)%Z) eqn:T1; simpl; [|done].
  intros _.
  destruct (bool_decide (time_get_ticks dev2 - time_get_ticks dev1 > 200)%Z) eqn:T2;
    simpl; [|done].
  intros _. by apply bool_decide_eq_true in T2.
Qed.

Section StoryUpdate.
Context {Sun : Type}.
Variable image : Sun -> string.
Variable image_rect : Sun -> Rect.
Variable mask : Sun -> Mask.
Variable update : Sun -> Sun.

Implicit Types (st : _State.attrs (Story.data Sun) * Surface).

(** The loop of [sun_updates] writes [self.suns] and the surface, and
    only adds to the surface. *)
Lemma for_obj_writes dev copy st :
  let r := Story.for_obj image image_rect mask update dev copy st in
  exists l ops,
    r.2 = (_State.set_extra (Story.set_suns l (_State.extra st.1)) st.1, st.2 ++ ops).
Proof.
  revert st. induction copy as [|r rest IH]; intros st.
  { exists (Story.suns (_State.extra st.1)), [].
    destruct st as [[t dn q n p pe [lv ob su ti tr nk nr b tm]] surf].
    simpl. by rewrite app_nil_r. }
  assert (forall op,
    let r0 := Story.for_obj image image_rect mask update dev rest (st.1, st.2 ++ [op]) in
    exists l ops,
      r0.2 = (_State.set_extra (Story.set_suns l (_State.extra st.1)) st.1, st.2 ++ ops))
    as Hrest.
  { intros op. destruct (IH (st.1, st.2 ++ [op])) as (l & ops & E).
    exists l, (op :: ops). simpl in *. rewrite E. by rewrite <- app_assoc. }
  assert (exists l ops,
    st = (_State.set_extra (Story.set_suns l (_State.extra st.1)) st.1, st.2 ++ ops))
    as Hsame.
  { exists (Story.suns (_State.extra st.1)), [].
    destruct st as [[t dn q n p pe [lv ob su ti tr nk nr b tm]] surf].
    simpl. by rewrite app_nil_r. }
  simpl. unfold Story.the_sun, Story.suns_remove, Story.on_data, Story.draw, get_at.
  eff.
  destruct (Story.sun_objs (_State.extra st.1) !! r) as [obj|]; simpl; [|done].
  destruct (collidepoint _ _ && _); simpl; [|apply Hrest].
  destruct (bool_decide _ && bool_decide _); simpl; [|done].
  destruct (mask_bit _ _ _); simpl; [apply Hrest|].
  destruct ((mouse_get_pressed dev).1.1); simpl; [|apply Hrest].
  destruct (list_remove r _) as [l'|]; simpl; [|done].
  exists l', []. by rewrite app_nil_r.
Qed.

(** X17: [Story.update] writes nothing of what the controller reads: when
    it ends, by returning or by raising, [done], [quit], [next],
    [previous], [persist] and [start_time] of the screen are as before,
    what was on the surface is still there under what was added, and no
    sun has been added to [self.suns].  When it returns, the last thing
    drawn is the title, and [blink] has changed exactly if more than 200
    ticks have passed since [timer], which then is the current time. *)
Theorem Story_update_effect dev keys mouse st :
  let r := Story.update image image_rect mask update dev keys mouse st in
  let a := st.1 in
  let a' := r.2.1 in
  _State.done a' = _State.done a
  /\ _State.quit a' = _State.quit a
  /\ _State.next a' = _State.next a
  /\ _State.previous a' = _State.previous a
  /\ _State.persist a' = _State.persist a
  /\ _State.start_time a' = _State.start_time a
  /\ Story.suns (_State.extra a') ⊆ Story.suns (_State.extra a)
  /\ (exists ops, r.2.2 = st.2 ++ Fill (0, 0, 0)%Z :: ops)
  /\ (r.1 = Ok tt ->
      (exists ops, r.2.2 = st.2 ++ ops ++ [Blit (Story.title (_State.extra a))
                                              (Story.title_rect (_State.extra a))])
      /\ if bool_decide (time_get_ticks dev - Story.timer (_State.extra a) > 200)%Z
         then Story.blink (_State.extra a') = negb (Story.blink (_State.extra a))
              /\ Story.timer (_State.extra a') = time_get_ticks dev
         else Story.blink (_State.extra a') = Story.blink (_State.extra a)
              /\ Story.timer (_State.extra a') = Story.timer (_State.extra a)).
Proof.
  unfold Story.update, Story.sun_updates.
  pose proof (for_obj_writes dev (Story.suns (_State.extra st.1))
                (st.1, st.2 ++ [Fill (0, 0, 0)%Z])) as (l & ops & E).
  pose proof (for_obj_spec image image_rect mask update dev
                (Story.suns (_State.extra st.1)) (st.1, st.2 ++ [Fill (0, 0, 0)%Z]))
    as (_ & Hsub & _).
  unfold Story.on_data, Story.draw. eff.
  destruct (Story.for_obj image image_rect mask update dev
              (Story.suns (_State.extra st.1)) (st.1, st.2 ++ [Fill (0, 0, 0)%Z]))
    as [[[]|e] st1]; simpl in *; subst st1; simpl in *.
  2:{ repeat split; try done. exists ops. by rewrite <- app_assoc. }
  destruct st as [[t dn q n p pe [lv ob su ti tr nk nr b tm]] surf]. simpl in *.
  destruct (bool_decide (time_get_ticks dev - tm > 200)%Z); simpl;
    destruct b; simpl;
    (repeat split; try done;
     [eexists; rewrite <- !app_assoc; simpl; reflexivity
     |first [exists (Fill (0, 0, 0)%Z :: ops); by rewrite <- !app_assoc
            |exists (Fill (0, 0, 0)%Z :: ops ++ [Blit nk nr]);
             by rewrite <- !app_assoc; simpl; rewrite <- !app_assoc]]).
Qed.
End StoryUpdate.

Lemma string_of_list_ascii_app l1 l2 :
  string_of_list_ascii (l1 ++ l2)
  = string_of_list_ascii l1 +:+ string_of_list_ascii l2.
Proof. induction l1 as [|a l1 IH]; simpl; [done|]. by rewrite IH. Qed.

Lemma string_app_empty (s : string) : s +:+ "" = s.
Proof.
  induction s as [|a s IH]; [done|].
  change (String a s +:+ "") with (String a (s +:+ "")). by rewrite IH.
Qed.

(** The two parts [splitext] returns make up the name it was given. *)
Lemma splitext_parts p : (splitext p).1 +:+ (splitext p).2 = p.
Proof.
  unfold splitext.
  destruct (bool_decide _ && skip_leading_dots _ _); simpl.
  - rewrite <- string_of_list_ascii_app, take_drop.
    apply string_of_list_ascii_of_string.
  - apply string_app_empty.
Qed.

Lemma for_pic_app fs directory colorkey accept l1 l2 g0 g1 :
  for_pic fs directory colorkey accept l1 g0 = (Ok tt, g1) ->
  for_pic fs directory colorkey accept (l1 ++ l2) g0
  = for_pic fs directory colorkey accept l2 g1.
Proof.
  revert g0. induction l1 as [|pic rest IH]; simpl; intros g0 H.
  { by injection H as <-. }
  destruct (splitext pic) as [nm ext]. revert H. eff.
  destruct (bool_decide (lower ext ∈ accept)); simpl; [|apply IH].
  destruct (image_load fs (path_join directory pic)); simpl; [apply IH|done].
Qed.

(** X22: a picture with an accepted extension that does not load makes
    [load_all_gfx] raise for the path of the first such picture; nothing
    is returned, not even the pictures that loaded before it. *)
Theorem load_all_gfx_first_failure fs directory colorkey accept pre bad post :
  listdir fs directory = Some (pre ++ bad :: post) ->
  (forall pic, pic ∈ pre -> accepted accept pic = true ->
     is_Some (image_load fs (path_join directory pic))) ->
  accepted accept bad = true ->
  image_load fs (path_join directory bad) = None ->
  load_all_gfx fs directory colorkey accept
  = Raise (PygameError (path_join directory bad)).
Proof.
  intros Hdir Hpre Hacc Hbad. unfold load_all_gfx. rewrite Hdir.
  destruct (for_pic_spec fs directory colorkey accept pre ∅ Hpre) as (g & E & _).
  rewrite (for_pic_app _ _ _ _ _ _ _ _ E). simpl.
  unfold accepted in Hacc. destruct (splitext bad) as [nm ext]. simpl in Hacc.
  eff. rewrite Hacc, Hbad. done.
Qed.

(** X23: [load_all_gfx] opens the files with an accepted extension and no
    others: the outcome is the same in a directory that lists the accepted
    files only, whatever the other files were, as long as the accepted
    ones decode the same. *)
Theorem load_all_gfx_reads_accepted_only fs fs' directory colorkey accept pics :
  listdir fs directory = Some pics ->
  listdir fs' directory = Some (filter (fun pic => accepted accept pic = true) pics) ->
  (forall pic, pic ∈ pics -> accepted accept pic = true ->
     image_load fs' (path_join directory pic) = image_load fs (path_join directory pic)) ->
  load_all_gfx fs' directory colorkey accept = load_all_gfx fs directory colorkey accept.
Proof.
  intros Hdir Hdir' Hsame. unfold load_all_gfx. rewrite Hdir, Hdir'. f_equal.
  clear Hdir Hdir'. generalize (∅ : gmap string Graphic).
  induction pics as [|pic rest IH]; intros g0; [done|].
  assert (forall g, for_pic fs' directory colorkey accept
                      (filter (fun pic => accepted accept pic = true) rest) g
                    = for_pic fs directory colorkey accept rest g) as IH'.
  { intros g. apply IH. intros p Hp. apply Hsame. set_solver. }
  destruct (accepted accept pic) eqn:Hacc.
  - rewrite filter_cons_True by done. simpl.
    unfold accepted in Hacc. destruct (splitext pic) as [nm ext] eqn:Hsplit.
    simpl in Hacc. eff. rewrite Hacc. rewrite Hsame; [|set_solver|].
    2:{ unfold accepted. by rewrite Hsplit. }
    destruct (image_load fs _); simpl; [apply IH'|done].
  - rewrite filter_cons_False by (by rewrite Hacc). simpl.
    unfold accepted in Hacc. destruct (splitext pic) as [nm ext]. simpl in Hacc.
    eff. rewrite Hacc. simpl. apply IH'.
Qed.

Lemma last_cons_or {A} (x : A) l :
  last (x :: l) = match last l with Some y => Some y | None => Some x end.
Proof.
  destruct l as [|y l]; [done|]. rewrite last_cons_cons.
  destruct (last (y :: l)) eqn:E; [done|]. by apply last_None in E.
Qed.

Lemma for_pic_last fs directory colorkey accept pics g0 :
  (forall pic, pic ∈ pics -> accepted accept pic = true ->
     is_Some (image_load fs (path_join directory pic))) ->
  exists g,
    for_pic fs directory colorkey accept pics g0 = (Ok tt, g)
    /\ forall k,
         g !! k = match last (filter (fun pic => accepted accept pic = true
                                                 /\ (splitext pic).1 = k) pics) with
                  | Some pic => as_displayed colorkey
                                  <$> image_load fs (path_join directory pic)
                  | None => g0 !! k
                  end.
Proof.
  revert g0. induction pics as [|pic rest IH]; intros g0 Hload.
  { exists g0. by split. }
  simpl. unfold accepted in *.
  destruct (splitext pic) as [nm ext] eqn:Hsplit. eff.
  destruct (bool_decide (lower ext ∈ accept)) eqn:Hacc.
  - destruct (Hload pic) as [img Himg]; [set_solver|by rewrite Hsplit|].
    rewrite Himg. simpl.
    destruct (IH (<[nm := as_displayed colorkey img]> g0)) as (g & E & Hent).
    { intros p Hp. apply Hload. set_solver. }
    exists g. split; [done|]. intros k. rewrite Hent.
    destruct (decide (nm = k)) as [<-|Hne].
    + rewrite filter_cons_True by (by rewrite Hsplit).
      rewrite last_cons_or. destruct (last _); [done|].
      by rewrite lookup_insert_eq, Himg.
    + rewrite filter_cons_False by (rewrite Hsplit; simpl; tauto).
      destruct (last _); [done|]. by rewrite lookup_insert_ne.
  - destruct (IH g0) as (g & E & Hent).
    { intros p Hp. apply Hload. set_solver. }
    exists g. split; [done|]. intros k. rewrite Hent.
    rewrite filter_cons_False; [done|]. rewrite Hsplit. simpl. rewrite Hacc.
    intros [? _]. done.
Qed.

(** X24: when several accepted files have the same name up to the
    extension, they share one key and the entry is the one of the file
    that comes last in the listing; a name no accepted file has is no
    key. *)
Theorem load_all_gfx_last_wins fs directory colorkey accept pics :
  listdir fs directory = Some pics ->
  (forall pic, pic ∈ pics -> accepted accept pic = true ->
     is_Some (image_load fs (path_join directory pic))) ->
  exists g,
    load_all_gfx fs directory colorkey accept = Ok g
    /\ forall k,
         g !! k = match last (filter (fun pic => accepted accept pic = true
                                                 /\ (splitext pic).1 = k) pics) with
                  | Some pic => as_displayed colorkey
                                  <$> image_load fs (path_join directory pic)
                  | None => None
                  end.
Proof.
  intros Hdir Hload. unfold load_all_gfx. rewrite Hdir.
  destruct (for_pic_last fs directory colorkey accept pics ∅ Hload) as (g & E & Hent).
  exists g. rewrite E. split; [done|]. intros k. rewrite Hent.
  destruct (last _); [done|]. apply lookup_empty.
Qed.

Lemma for_song_spec directory accept songs g0 :
  exists g,
    for_song directory accept songs g0 = (Ok tt, g)
    /\ dom g = dom g0 ∪ list_to_set ((fun song => (splitext song).1)
                         <$> filter (fun song => accepted accept song = true) songs)
    /\ forall k v, g !! k = Some v ->
         g0 !! k = Some v
         \/ exists song,
              song ∈ songs /\ accepted accept song = true /\ (splitext song).1 = k
              /\ v = path_join directory song.
Proof.
  revert g0. induction songs as [|song rest IH]; intros g0.
  { exists g0. split; [done|]. split; [set_solver|]. auto. }
  simpl. unfold accepted in *.
  destruct (splitext song) as [nm ext] eqn:Hsplit. eff.
  destruct (bool_decide (lower ext ∈ accept)) eqn:Hacc.
  - destruct (IH (<[nm := path_join directory song]> g0)) as (g & E & Hdom & Hent).
    exists g. split; [done|]. split.
    + rewrite Hdom, dom_insert_L, filter_cons_True by (by rewrite Hsplit).
      rewrite fmap_cons, Hsplit. simpl. set_solver.
    + intros k v Hk. destruct (Hent k v Hk) as [H0|(p & Hp & ?)].
      * destruct (decide (nm = k)) as [<-|Hne].
        -- rewrite lookup_insert_eq in H0. injection H0 as <-.
           right. exists song. rewrite Hsplit. simpl.
           split; [set_solver|done].
        -- rewrite lookup_insert_ne in H0 by done. by left.
      * right. exists p. split; [set_solver|done].
  - destruct (IH g0) as (g & E & Hdom & Hent).
    exists g. split; [done|]. split.
    + rewrite Hdom, filter_cons_False; [done|]. rewrite Hsplit. simpl. by rewrite Hacc.
    + intros k v Hk. destruct (Hent k v Hk) as [H0|(p & Hp & ?)]; [by left|].
      right. exists p. split; [set_solver|done].
Qed.

(** X25: [load_all_music] opens no file, so it returns whenever the
    directory can be listed; the keys are the names, extension stripped,
    of the files whose lowercased extension is accepted, and the entry of
    a key is the path of such a file in the directory: the directory
    joined with the key followed by the file's extension as it is
    spelled. *)
Theorem load_all_music_paths fs directory accept songs :
  listdir fs directory = Some songs ->
  exists g,
    load_all_music fs directory accept = Ok g
    /\ dom g = list_to_set ((fun song => (splitext song).1)
                  <$> filter (fun song => accepted accept song = true) songs)
    /\ forall k v, g !! k = Some v ->
         exists ext, k +:+ ext ∈ songs
                     /\ lower ext ∈ accept
                     /\ v = path_join directory (k +:+ ext).
Proof.
  intros Hdir. unfold load_all_music. rewrite Hdir.
  destruct (for_song_spec directory accept songs ∅) as (g & E & Hdom & Hent).
  exists g. rewrite E. split; [done|]. split.
  - rewrite Hdom, dom_empty_L. set_solver.
  - intros k v Hk. destruct (Hent k v Hk) as [H0|(song & Hin & Hacc & <- & ->)];
      [by rewrite lookup_empty in H0|].
    exists (splitext song).2. rewrite splitext_parts.
    split; [done|]. split; [|done].
    unfold accepted in Hacc. by apply bool_decide_eq_true in Hacc.
Qed.

Lemma for_fx_run fs directory accept fxs g0 :
  for_fx fs directory accept fxs g0
  = match filter (fun fx => accepted accept fx = true) fxs with
    | [] => (Ok tt, g0)
    | _ :: _ => (Raise (AttributeError "os"), g0)
    end.
Proof.
  induction fxs as [|fx rest IH]; [done|].
  simpl. unfold accepted in *. destruct (splitext fx) as [nm ext] eqn:Hsplit. eff.
  destruct (bool_decide (lower ext ∈ accept)) eqn:Hacc.
  - rewrite filter_cons_True by (by rewrite Hsplit). done.
  - rewrite filter_cons_False by (rewrite Hsplit; simpl; by rewrite Hacc).
    simpl. apply IH.
Qed.

(** X26: [load_all_sfx] makes no [Sound]: when the directory lists a file
    with an accepted extension, the call raises [AttributeError] at the
    first such file, on [pg.os], whatever the files hold; when it lists
    none, the call returns the empty mapping. *)
Theorem load_all_sfx_makes_no_sound fs directory accept fxs :
  listdir fs directory = Some fxs ->
  load_all_sfx fs directory accept
  = match filter (fun fx => accepted accept fx = true) fxs with
    | [] => Ok ∅
    | _ :: _ => Raise (AttributeError "os")
    end.
Proof.
  intros Hdir. unfold load_all_sfx. rewrite Hdir, for_fx_run.
  by destruct (filter _ fxs).
Qed.

(** ** The further scenarios *)

Lemma event_loop_dispatches_in_order_witness :
  Control.State (Control.control Cases.queued) = Some 0
  /\ Control.event_loop Cases.queued = (Ok tt, (Control.event_loop Cases.queued).2)
  /\ Control.event_queue (Control.event_loop Cases.queued).2 = []
  /\ exists n, n ≤ length (Control.event_queue Cases.queued)
       /\ since (Control.calls Cases.queued) (Control.event_loop Cases.queued).2
          = CallGetEvent 0 <$> take n (Control.event_queue Cases.queued)
       /\ (Ok tt = Ok tt -> n = length (Control.event_queue Cases.queued)).
Proof.
  split; [reflexivity|]. split; [vm_compute; reflexivity|].
  apply (event_loop_dispatches_in_order Cases.queued (Ok tt)
           (Control.event_loop Cases.queued).2 0); vm_compute; reflexivity.
Defined.

Lemma event_loop_makes_no_transition_witness :
  Control.event_loop Cases.queued = (Ok tt, (Control.event_loop Cases.queued).2)
  /\ Control.State (Control.control (Control.event_loop Cases.queued).2)
     = Control.State (Control.control Cases.queued)
  /\ Control.state_name (Control.control (Control.event_loop Cases.queued).2)
     = Control.state_name (Control.control Cases.queued)
  /\ Control.state_dict (Control.control (Control.event_loop Cases.queued).2)
     = Control.state_dict (Control.control Cases.queued)
  /\ forall x, Control.State (Control.control Cases.queued) ≠ Some x ->
       Control.objs (Control.event_loop Cases.queued).2 !! x = Control.objs Cases.queued !! x.
Proof.
  split; [vm_compute; reflexivity|].
  apply (event_loop_makes_no_transition Cases.queued (Ok tt)).
  vm_compute; reflexivity.
Defined.

Lemma show_fps_needs_F5_witness :
  key_get_pressed (Control.device Cases.queued) K_F5 = false
  /\ Control.event_loop Cases.queued = (Ok tt, (Control.event_loop Cases.queued).2)
  /\ Control.show_fps (Control.control (Control.event_loop Cases.queued).2)
     = Control.show_fps (Control.control Cases.queued).
Proof.
  split; [reflexivity|]. split; [vm_compute; reflexivity|].
  apply (show_fps_needs_F5 Cases.queued (Ok tt)); [reflexivity|vm_compute; reflexivity].
Defined.

Lemma quit_event_sets_done_witness :
  (exists event, event ∈ Control.event_queue Cases.closing /\ ev_type event = QUIT)
  /\ Control.event_loop Cases.closing = (Ok tt, (Control.event_loop Cases.closing).2)
  /\ Control.done (Control.control (Control.event_loop Cases.closing).2) = true.
Proof.
  assert (exists event, event ∈ Control.event_queue Cases.closing /\ ev_type event = QUIT)
    as Hq.
  { exists (mkEvent QUIT 0). split; [|reflexivity]. simpl. set_solver. }
  split; [exact Hq|]. split; [vm_compute; reflexivity|].
  apply (quit_event_sets_done Cases.closing); [exact Hq|vm_compute; reflexivity].
Defined.

Lemma window_close_ends_main_witness :
  Control.done (Control.control Scenario.two_states) = false
  /\ (exists event, event ∈ frame_events Cases.close_frame /\ ev_type event = QUIT)
  /\ Control.iteration (Control.arrive Cases.close_frame Scenario.two_states)
     = (Ok tt, (Control.iteration (Control.arrive Cases.close_frame Scenario.two_states)).2)
  /\ Control.main [Cases.close_frame; Cases.key_frame] Scenario.two_states
     = (Ok true, (Control.iteration (Control.arrive Cases.close_frame Scenario.two_states)).2)
  /\ Control.presented (Control.iteration (Control.arrive Cases.close_frame Scenario.two_states)).2
     = S (Control.presented Scenario.two_states).
Proof.
  assert (exists event, event ∈ frame_events Cases.close_frame /\ ev_type event = QUIT)
    as Hq.
  { exists (mkEvent QUIT 0). split; [|reflexivity]. simpl. set_solver. }
  split; [reflexivity|]. split; [exact Hq|]. split; [vm_compute; reflexivity|].
  apply (window_close_ends_main Scenario.two_states Cases.close_frame [Cases.key_frame]);
    [reflexivity|exact Hq|vm_compute; reflexivity].
Defined.

Lemma main_returns_done_witness :
  Control.main [Cases.empty_frame; Cases.key_frame] Scenario.two_states
  = (Ok false, (Control.main [Cases.empty_frame; Cases.key_frame] Scenario.two_states).2)
  /\ Control.done
       (Control.control (Control.main [Cases.empty_frame; Cases.key_frame]
                           Scenario.two_states).2) = false
  /\ (false = false ->
      Control.presented (Control.main [Cases.empty_frame; Cases.key_frame]
                           Scenario.two_states).2
      = Control.presented Scenario.two_states + length [Cases.empty_frame; Cases.key_frame]).
Proof.
  split; [vm_compute; reflexivity|].
  apply (main_returns_done [Cases.empty_frame; Cases.key_frame] Scenario.two_states false).
  vm_compute; reflexivity.
Defined.

Lemma main_keeps_consistent_witness :
  consistent Scenario.two_states
  /\ Control.main [Cases.empty_frame; Cases.key_frame] Scenario.two_states
     = (Ok false, (Control.main [Cases.empty_frame; Cases.key_frame] Scenario.two_states).2)
  /\ consistent (Control.main [Cases.empty_frame; Cases.key_frame] Scenario.two_states).2
  /\ Control.state_dict
       (Control.control (Control.main [Cases.empty_frame; Cases.key_frame]
                           Scenario.two_states).2)
     = Control.state_dict (Control.control Scenario.two_states).
Proof.
  assert (consistent Scenario.two_states) as Hc.
  { exists 0. split; vm_compute; reflexivity. }
  split; [exact Hc|]. split; [vm_compute; reflexivity|].
  apply (main_keeps_consistent [Cases.empty_frame; Cases.key_frame] Scenario.two_states false);
    [exact Hc|vm_compute; reflexivity].
Defined.

(** After the key press of the second frame the controller is in [B]. *)
Example main_reaches_B :
  Control.state_name
    (Control.control (Control.main [Cases.empty_frame; Cases.key_frame]
                        Scenario.two_states).2) = Some "B"
  /\ Control.State
       (Control.control (Control.main [Cases.empty_frame; Cases.key_frame]
                           Scenario.two_states).2) = Some 1.
Proof. vm_compute. auto. Qed.

Lemma setup_states_registered_witness :
  Cases.A_and_B !! Some "B" = Some 1
  /\ exists w',
       Control.setup_states Cases.A_and_B (Some "B") Cases.not_set_up = (Ok tt, w')
       /\ Control.state_dict (Control.control w') = Cases.A_and_B
       /\ Control.state_name (Control.control w') = Some "B"
       /\ Control.State (Control.control w') = Some 1
       /\ consistent w'
       /\ Control.calls w' = Control.calls Cases.not_set_up
       /\ Control.objs w' = Control.objs Cases.not_set_up.
Proof.
  split; [vm_compute; reflexivity|].
  apply (setup_states_registered Cases.A_and_B (Some "B") 1 Cases.not_set_up).
  vm_compute; reflexivity.
Defined.

Lemma setup_states_unregistered_witness :
  Cases.A_and_B !! Some "MENU" = None
  /\ exists w',
       Control.setup_states Cases.A_and_B (Some "MENU") Cases.not_set_up
       = (Raise (KeyError (Some "MENU")), w')
       /\ Control.state_dict (Control.control w') = Cases.A_and_B
       /\ Control.state_name (Control.control w') = Some "MENU"
       /\ Control.State (Control.control w') = Control.State (Control.control Cases.not_set_up)
       /\ Control.calls w' = Control.calls Cases.not_set_up
       /\ Control.objs w' = Control.objs Cases.not_set_up.
Proof.
  split; [vm_compute; reflexivity|].
  apply (setup_states_unregistered Cases.A_and_B (Some "MENU") Cases.not_set_up).
  vm_compute; reflexivity.
Defined.

Lemma toggle_show_fps_twice_witness :
  Control.keys (Control.control Cases.F5_held) K_F5 = true
  /\ exists w1 w2,
       Control.toggle_show_fps Cases.F5_held = (Ok tt, w1)
       /\ Control.show_fps (Control.control w1)
          = negb (Control.show_fps (Control.control Cases.F5_held))
       /\ Control.toggle_show_fps w1 = (Ok tt, w2)
       /\ Control.control w2 = Control.control Cases.F5_held
       /\ (Control.show_fps (Control.control Cases.F5_held) = true ->
           Control.window_caption w1 = Plain (Control.caption (Control.control Cases.F5_held)))
       /\ (Control.show_fps (Control.control Cases.F5_held) = false ->
           Control.window_caption w1 = Control.window_caption Cases.F5_held
           /\ Control.window_caption w2
              = Plain (Control.caption (Control.control Cases.F5_held))).
Proof.
  split; [reflexivity|].
  apply (toggle_show_fps_twice Cases.F5_held). reflexivity.
Defined.

Lemma flip_state_to_itself_witness :
  Control.State (Control.control (Scenario.A_done (Some "A"))) = Some 0
  /\ Control.objs (Scenario.A_done (Some "A")) !! 0 = Some (Scenario.A_obj (Some "A"))
  /\ Control.state_dict (Control.control (Scenario.A_done (Some "A"))) !! Some "A" = Some 0
  /\ exists w' o',
       Control.flip_state (Scenario.A_done (Some "A")) = (Ok tt, w')
       /\ Control.State (Control.control w') = Some 0
       /\ Control.objs w' !! 0 = Some o'
       /\ _State.done (_State.self o') = false
       /\ _State.start_time (_State.self o') = 0%Z
       /\ _State.previous (_State.self o') = Some "A"
       /\ _State.persist (_State.self o') = 0
       /\ _State.next (_State.self o') = Some "A"
       /\ _State.quit (_State.self o') = false
       /\ _State.extra (_State.self o') = tt
       /\ (forall x, x ≠ 0 ->
             Control.objs w' !! x = Control.objs (Scenario.A_done (Some "A")) !! x).
Proof.
  split; [reflexivity|]. split; [vm_compute; reflexivity|].
  split; [vm_compute; reflexivity|].
  apply (flip_state_to_itself (Scenario.A_done (Some "A")) 0 (Scenario.A_obj (Some "A")));
    vm_compute; reflexivity.
Defined.

Lemma flip_state_shares_persist_witness :
  Control.State (Control.control (Scenario.A_done (Some "B"))) = Some 0
  /\ Control.objs (Scenario.A_done (Some "B")) !! 0 = Some (Scenario.A_obj (Some "B"))
  /\ Control.state_dict (Control.control (Scenario.A_done (Some "B"))) !! Some "B" = Some 1
  /\ 1 ≠ 0
  /\ Control.objs (Scenario.A_done (Some "B")) !! 1 = Some Cases.B_obj
  /\ exists w' oa ob,
       Control.flip_state (Scenario.A_done (Some "B")) = (Ok tt, w')
       /\ Control.objs w' !! 0 = Some oa
       /\ Control.objs w' !! 1 = Some ob
       /\ oa = left (Scenario.A_obj (Some "B"))
       /\ _State.persist (_State.self oa) = 0
       /\ _State.persist (_State.self ob) = 0
       /\ _State.done (_State.self ob) = false
       /\ _State.extra (_State.self ob) = tt.
Proof.
  split; [reflexivity|]. split; [vm_compute; reflexivity|].
  split; [vm_compute; reflexivity|]. split; [discriminate|].
  split; [vm_compute; reflexivity|].
  apply (flip_state_shares_persist (Scenario.A_done (Some "B")) 0
           (Scenario.A_obj (Some "B")) 1 Cases.B_obj);
    try (vm_compute; reflexivity). discriminate.
Defined.



Lemma sun_updates_undisturbed_witness :
  (forall r, r ∈ Story.suns (_State.extra Scenario.two_suns) ->
     exists obj, Story.sun_objs (_State.extra Scenario.two_suns) !! r = Some obj
                 /\ collidepoint (Scenario.sun_rect obj) (mouse_get_pos (Scenario.click_at (15, 4)%Z))
                    && (mouse_get_pressed (Scenario.click_at (15, 4)%Z)).1.1 = false)
  /\ Story.sun_updates (fun _ => "sun") Scenario.sun_rect Scenario.sun_mask
       Scenario.Sun_update (Scenario.click_at (15, 4)%Z) (Scenario.two_suns, [])
     = (Ok tt,
        (Scenario.two_suns,
         [] ++ omap (fun r => (fun obj => Blit "sun" (Scenario.sun_rect obj))
                                <$> Story.sun_objs (_State.extra Scenario.two_suns) !! r)
                    (Story.suns (_State.extra Scenario.two_suns)))).
Proof.
  assert (forall r, r ∈ Story.suns (_State.extra Scenario.two_suns) ->
     exists obj, Story.sun_objs (_State.extra Scenario.two_suns) !! r = Some obj
                 /\ collidepoint (Scenario.sun_rect obj) (mouse_get_pos (Scenario.click_at (15, 4)%Z))
                    && (mouse_get_pressed (Scenario.click_at (15, 4)%Z)).1.1 = false) as H.
  { intros r Hr. apply list_elem_of_In in Hr. simpl in Hr.
    destruct Hr as [<-|[<-|[]]]; eexists; split; vm_compute; reflexivity. }
  split; [exact H|].
  apply (sun_updates_undisturbed (fun _ => "sun") Scenario.sun_rect Scenario.sun_mask
           Scenario.Sun_update (Scenario.click_at (15, 4)%Z) (Scenario.two_suns, [])).
  exact H.
Defined.

Lemma sun_updates_returns_witness :
  (forall r, r ∈ Story.suns (_State.extra Scenario.two_suns) ->
     exists obj, Story.sun_objs (_State.extra Scenario.two_suns) !! r = Some obj
                 /\ (rect_w (Scenario.sun_rect obj) ≤ mask_w (Scenario.sun_mask obj))%Z
                 /\ (rect_h (Scenario.sun_rect obj) ≤ mask_h (Scenario.sun_mask obj))%Z)
  /\ (Story.sun_updates (fun _ => "sun") Scenario.sun_rect Scenario.sun_mask
        Scenario.Sun_update (Scenario.click_at (3, 4)%Z) (Scenario.two_suns, [])).1 = Ok tt.
Proof.
  assert (forall r, r ∈ Story.suns (_State.extra Scenario.two_suns) ->
     exists obj, Story.sun_objs (_State.extra Scenario.two_suns) !! r = Some obj
                 /\ (rect_w (Scenario.sun_rect obj) ≤ mask_w (Scenario.sun_mask obj))%Z
                 /\ (rect_h (Scenario.sun_rect obj) ≤ mask_h (Scenario.sun_mask obj))%Z) as H.
  { intros r Hr. apply list_elem_of_In in Hr. simpl in Hr.
    destruct Hr as [<-|[<-|[]]]; eexists; (split; [vm_compute; reflexivity|]);
      simpl; lia. }
  split; [exact H|].
  apply (sun_updates_returns (fun _ => "sun") Scenario.sun_rect Scenario.sun_mask
           Scenario.Sun_update (Scenario.click_at (3, 4)%Z) (Scenario.two_suns, [])).
  exact H.
Defined.

Lemma sun_updates_outside_mask_witness :
  Story.suns (_State.extra Cases.small_mask) = [0]
  /\ Story.sun_objs (_State.extra Cases.small_mask) !! 0
     = Some (Scenario.mkSun (mkRect 0 0 10 10) (mkMask 5 5 (fun _ _ => false)) 0)
  /\ Story.sun_updates (fun _ => "sun") Scenario.sun_rect Scenario.sun_mask
       Scenario.Sun_update (Scenario.click_at (7, 7)%Z) (Cases.small_mask, [])
     = (Raise IndexError, (Cases.small_mask, [])).
Proof.
  split; [reflexivity|]. split; [vm_compute; reflexivity|].
  apply (sun_updates_outside_mask (fun _ => "sun") Scenario.sun_rect Scenario.sun_mask
           Scenario.Sun_update (Scenario.click_at (7, 7)%Z) (Cases.small_mask, []) 0 []
           (Scenario.mkSun (mkRect 0 0 10 10) (mkMask 5 5 (fun _ _ => false)) 0));
    try (vm_compute; reflexivity).
  left. simpl. lia.
Defined.

Lemma load_all_gfx_first_failure_witness :
  listdir Cases.broken_files "gfx" = Some (["foo.png"] ++ "bad.png" :: ["bar.png"])
  /\ accepted gfx_accept "bad.png" = true
  /\ image_load Cases.broken_files (path_join "gfx" "bad.png") = None
  /\ load_all_gfx Cases.broken_files "gfx" gfx_colorkey gfx_accept
     = Raise (PygameError (path_join "gfx" "bad.png")).
Proof.
  split; [reflexivity|]. split; [vm_compute; reflexivity|].
  split; [vm_compute; reflexivity|].
  apply (load_all_gfx_first_failure Cases.broken_files "gfx" gfx_colorkey gfx_accept
           ["foo.png"] "bad.png" ["bar.png"]);
    try (vm_compute; reflexivity).
  intros pic Hpic _. apply list_elem_of_In in Hpic. simpl in Hpic.
  destruct Hpic as [<-|[]]. vm_compute. eauto.
Defined.

Lemma load_all_gfx_reads_accepted_only_witness :
  listdir Cases.cluttered_files "gfx" = Some ["foo.png"; "notes.txt"; "bar.png"; ".png"]
  /\ listdir Scenario.picture_files "gfx"
     = Some (filter (fun pic => accepted gfx_accept pic = true)
               ["foo.png"; "notes.txt"; "bar.png"; ".png"])
  /\ load_all_gfx Scenario.picture_files "gfx" gfx_colorkey gfx_accept
     = load_all_gfx Cases.cluttered_files "gfx" gfx_colorkey gfx_accept.
Proof.
  split; [reflexivity|]. split; [vm_compute; reflexivity|].
  apply (load_all_gfx_reads_accepted_only Cases.cluttered_files Scenario.picture_files
           "gfx" gfx_colorkey gfx_accept ["foo.png"; "notes.txt"; "bar.png"; ".png"]);
    [reflexivity|vm_compute; reflexivity|].
  intros pic _ _. reflexivity.
Defined.

Lemma load_all_gfx_last_wins_witness :
  listdir Cases.same_name_files "gfx" = Some ["foo.png"; "foo.BMP"]
  /\ exists g,
       load_all_gfx Cases.same_name_files "gfx" gfx_colorkey gfx_accept = Ok g
       /\ forall k,
            g !! k = match last (filter (fun pic => accepted gfx_accept pic = true
                                                    /\ (splitext pic).1 = k)
                                   ["foo.png"; "foo.BMP"]) with
                     | Some pic => as_displayed gfx_colorkey
                                     <$> image_load Cases.same_name_files (path_join "gfx" pic)
                     | None => None
                     end.
Proof.
  split; [reflexivity|].
  apply (load_all_gfx_last_wins Cases.same_name_files "gfx" gfx_colorkey gfx_accept
           ["foo.png"; "foo.BMP"]); [reflexivity|].
  intros pic _ _. simpl. eauto.
Defined.

(** In that directory the one key is [foo], and its entry is the
    [.BMP]. *)
Example load_all_gfx_foo_twice :
  load_all_gfx Cases.same_name_files "gfx" gfx_colorkey gfx_accept
  = Ok (<["foo" := mkGraphic (mkImage "gfx/foo.BMP" None) Opaque (Some (255, 0, 255)%Z)]> ∅).
Proof. vm_compute. reflexivity. Qed.

Lemma load_all_music_paths_witness :
  listdir Cases.sound_files "snd" = Some ["a.ogg"; "b.MP3"; "c.txt"]
  /\ exists g,
       load_all_music Cases.sound_files "snd" music_accept = Ok g
       /\ dom g = list_to_set ((fun song => (splitext song).1)
                     <$> filter (fun song => accepted music_accept song = true)
                           ["a.ogg"; "b.MP3"; "c.txt"])
       /\ forall k v, g !! k = Some v ->
            exists ext, k +:+ ext ∈ ["a.ogg"; "b.MP3"; "c.txt"]
                        /\ lower ext ∈ music_accept
                        /\ v = path_join "snd" (k +:+ ext).
Proof.
  split; [reflexivity|].
  apply (load_all_music_paths Cases.sound_files "snd" music_accept
           ["a.ogg"; "b.MP3"; "c.txt"]).
  reflexivity.
Defined.

Example load_all_music_a_b :
  load_all_music Cases.sound_files "snd" music_accept
  = Ok (<["a" := "snd/a.ogg"]> (<["b" := "snd/b.MP3"]> ∅)).
Proof. vm_compute. reflexivity. Qed.

Lemma load_all_sfx_makes_no_sound_witness :
  listdir Cases.sound_files "snd" = Some ["a.ogg"; "b.MP3"; "c.txt"]
  /\ load_all_sfx Cases.sound_files "snd" music_accept
     = match filter (fun fx => accepted music_accept fx = true)
               ["a.ogg"; "b.MP3"; "c.txt"] with
       | [] => Ok ∅
       | _ :: _ => Raise (AttributeError "os")
       end.
Proof.
  split; [reflexivity|].
  apply (load_all_sfx_makes_no_sound Cases.sound_files "snd" music_accept
           ["a.ogg"; "b.MP3"; "c.txt"]).
  reflexivity.
Defined.

(** With sounds in the directory the call raises; with none of the
    accepted kinds it returns the empty mapping. *)
Example load_all_sfx_raises :
  load_all_sfx Cases.sound_files "snd" music_accept = Raise (AttributeError "os")
  /\ load_all_sfx Cases.sound_files "snd" fonts_accept = Ok ∅.
Proof. vm_compute. auto. Qed.

(** A click on the first of the two suns, where its mask is clear. *)
Example sun_updates_removes_first :
  let r := Story.sun_updates (fun _ => "sun") Scenario.sun_rect Scenario.sun_mask
             Scenario.Sun_update (Scenario.click_at (3, 4)%Z) (Scenario.two_suns, []) in
  list_remove 0 (Story.suns (_State.extra Scenario.two_suns))
  = Some (Story.suns (_State.extra r.2.1)).
Proof. vm_compute. reflexivity. Qed.

(** A frame whose transition fails calls no [update] at all. *)
Lemma update_at_most_once_witness :
  Control.update (Scenario.A_done (Some "MENU"))
  = (Raise (KeyError (Some "MENU")), (Control.update (Scenario.A_done (Some "MENU"))).2)
  /\ exists l,
       Control.calls (Control.update (Scenario.A_done (Some "MENU"))).2
       = Control.calls (Scenario.A_done (Some "MENU")) ++ l
       /\ length (updates l) ≤ 1.
Proof.
  split; [vm_compute; reflexivity|].
  apply (update_at_most_once (Scenario.A_done (Some "MENU")) (Raise (KeyError (Some "MENU")))).
  vm_compute; reflexivity.
Defined.



(** ** The claims as first worded *)

(** [A] is done and asks for ["MENU"], which is not registered: the call
    of [Control.update] raises out of [flip_state] and calls no
    [update]. *)
Lemma failed_transition_calls_no_update :
  ~ update_calls_one_update (Scenario.A_done (Some "MENU")).
Proof.
  intros H.
  destruct (H (Raise (KeyError (Some "MENU")))
              (Control.update (Scenario.A_done (Some "MENU"))).2) as [r Hr].
  - vm_compute. reflexivity.
  - vm_compute in Hr. discriminate Hr.
Qed.

(** One picture of the directory does not decode: [load_all_gfx] raises
    and returns no mapping. *)
Lemma unreadable_picture_returns_nothing :
  ~ load_all_gfx_returns_keys Cases.broken_files "gfx" gfx_colorkey gfx_accept.
Proof.
  intros H.
  destruct (H ["foo.png"; "bad.png"; "bar.png"]) as (g & Hg & _); [reflexivity|].
  vm_compute in Hg. discriminate Hg.
Qed.

(** The pass of the loop is the event loop, the update and the
    presentation of the frame. *)
Example iteration_presents :
  Control.iteration (X:=unit) = (Control.event_loop;; Control.update;; present).
Proof. reflexivity. Qed.

(** Two key presses in a run of [main]: from [A] to [B] and back, and [A]
    is current again with [done] clear. *)
Example main_reenters_A :
  let w := (Control.main [Cases.key_frame; Cases.key_frame] Scenario.two_states).2 in
  Control.State (Control.control w) = Some 0
  /\ (_State.done ∘ _State.self) <$> Control.objs w !! 0 = Some false
  /\ Control.presented w = 2.
Proof. vm_compute. auto. Qed.
